(** * spider.data_op: label encoding, neighbourhood graphs and the minibatch loader

    A shallow embedding of [build/lib/spider/data_op.py].  Python integers are
    [Z], index arrays are [list nat], an array is the list of its rows (its
    first dimension is the length of the list), a raised exception is [None],
    [print] and [np.random.shuffle] are recorded in an event trace, and the
    objects a callee mutates in place live in a store. *)

From Stdlib Require Import ZArith List Lia Lra Bool Reals Sorted.
From stdpp Require Import base option list gmap.

Local Open Scope Z_scope.

(** ** Python and numpy primitives *)

(** [l[start:stop]] on a list or a one-dimensional array: a negative bound
    counts from the end, and both bounds are clipped to the length. *)
Definition slice_bound (len i : Z) : Z :=
  if i <? 0 then Z.max (i + len) 0 else Z.min i len.

Definition py_slice {A} (l : list A) (start stop : Z) : list A :=
  let len := Z.of_nat (length l) in
  let lo := slice_bound len start in
  let hi := slice_bound len stop in
  take (Z.to_nat (hi - lo)) (drop (Z.to_nat lo) l).

(** [x[index]] for an integer index array: the rows of [x] at the positions
    of [index], in that order; [IndexError] when a position is out of range. *)
Definition take_rows {A} (x : list A) (index : list nat) : option (list A) :=
  mapM (fun i => x !! i) index.

(** ** tag2int *)

Section tag2int_def.
Context {A : Type} `{EqDecision A}.

(** [list(set(label))]: the distinct values of [label] in the iteration
    order of the hash set, which Python leaves unspecified. *)
Variable list_of_set : list A -> list A.

(** [tags.index(x)]: the first position of [x], [ValueError] when absent. *)
Fixpoint index (tags : list A) (x : A) : option nat :=
  match tags with
  | [] => None
  | t :: ts => if decide (t = x) then Some 0%nat else S <$> index ts x
  end.

Definition tag2int (label : list A) : option (list nat * list A) :=
  let tags := list_of_set label in
  int_label ← mapM (index tags) label;
  Some (int_label, tags).
End tag2int_def.

(** One admissible order: the elements of stdpp's finite set. *)
Definition gset_order `{Countable A} (label : list A) : list A :=
  elements (list_to_set label : gset A).

(** ** DataLoader *)

Inductive event := Warning | Shuffled.

Section DataLoader_def.
(** [A]: a row of an input array; [B]: a label; [RNG]: the state of
    numpy's global generator, advanced by every [np.random.shuffle]. *)
Context {A B RNG : Type}.
Variable shuffle : RNG -> list nat -> list nat * RNG.

Record DataLoader := {
  xs : list (list A);
  y : option (list B);
  epochs_completed : Z;
  _index_in_epoch : Z;
  sample_n : Z;
  _perm : list nat;
  for_eval : bool
}.

Definition batch : Type := list (list A) * option (list B).

(** [DataLoader(xs, y, for_eval)]: [self.xs[0]] raises on an empty tuple and
    the assertion fails when the arrays differ in length. *)
Definition __init__ (xs0 : list (list A)) (y0 : option (list B))
    (for_eval0 : bool) : option DataLoader :=
  match xs0 with
  | [] => None
  | x0 :: _ =>
      let n := length x0 in
      if forallb (fun x => Nat.eqb (length x) n) xs0 then
        Some {| xs := xs0; y := y0; epochs_completed := 0;
                _index_in_epoch := 0; sample_n := Z.of_nat n;
                _perm := seq 0 n; for_eval := for_eval0 |}
      else None
  end.

(** The loader and the generator, the events of a call, and its result
    ([None]: an exception left the call; the state is the one reached). *)
Definition M (T : Type) : Type :=
  DataLoader * RNG -> (DataLoader * RNG) * list event * option T.

Definition raise {T} : M T := fun w => (w, [], None).
#[local] Instance M_ret : MRet M := fun T v w => (w, [], Some v).
#[local] Instance M_bind : MBind M := fun T U k m w =>
  match m w with
  | (w1, e1, Some v) => let '(w2, e2, r) := k v w1 in (w2, e1 ++ e2, r)
  | (w1, e1, None) => (w1, e1, None)
  end.
Definition self : M DataLoader := fun w => (w, [], Some (fst w)).
Definition assign (f : DataLoader -> DataLoader) : M unit :=
  fun w => ((f (fst w), snd w), [], Some tt).
Definition emit (e : event) : M unit := fun w => (w, [e], Some tt).
Definition when (b : bool) (m : M unit) : M unit := if b then m else mret tt.
Definition of_option {T} (o : option T) : M T :=
  match o with Some v => mret v | None => raise end.

Definition set_epochs_completed (v : Z) (l : DataLoader) : DataLoader :=
  {| xs := xs l; y := y l; epochs_completed := v;
     _index_in_epoch := _index_in_epoch l; sample_n := sample_n l;
     _perm := _perm l; for_eval := for_eval l |}.
Definition set_index_in_epoch (v : Z) (l : DataLoader) : DataLoader :=
  {| xs := xs l; y := y l; epochs_completed := epochs_completed l;
     _index_in_epoch := v; sample_n := sample_n l;
     _perm := _perm l; for_eval := for_eval l |}.
Definition set_perm (v : list nat) (l : DataLoader) : DataLoader :=
  {| xs := xs l; y := y l; epochs_completed := epochs_completed l;
     _index_in_epoch := _index_in_epoch l; sample_n := sample_n l;
     _perm := v; for_eval := for_eval l |}.

(** [np.random.shuffle(self._perm)] *)
Definition random_shuffle : M unit :=
  fun w =>
    let '(p, g) := shuffle (snd w) (_perm (fst w)) in
    ((set_perm p (fst w), g), [Shuffled], Some tt).

Definition read_into_memory (index : list nat) : M batch :=
  l ← self;
  batch_y ← (if for_eval l then mret None
             else match y l with
                  | Some yv => of_option (Some <$> take_rows yv index)
                  | None => raise
                  end);
  batch_x ← of_option (mapM (fun x => take_rows x index) (xs l));
  mret (batch_x, batch_y).

Definition _multi_concatenate (a b : list (list A)) : list (list A) :=
  zip_with app a b.

(** [np.concatenate((y_rest_part, y_new_part))]; [None] is not an array. *)
Definition concatenate_y (a b : option (list B)) : M (option (list B)) :=
  match a, b with
  | Some u, Some v => mret (Some (u ++ v))
  | _, _ => raise
  end.

(** [x[0].shape[0]] of a tuple of arrays. *)
Definition first_dim (x : list (list A)) : M Z :=
  match x with
  | x0 :: _ => mret (Z.of_nat (length x0))
  | [] => raise
  end.

Definition next_batch (batch_size : Z) (shuffle_flag : bool) : M batch :=
  l0 ← self;
  when ((1 <=? epochs_completed l0) && for_eval l0) (emit Warning);;
  let start := _index_in_epoch l0 in
  (* Shuffle for the first epoch *)
  when ((epochs_completed l0 =? 0) && (start =? 0) && shuffle_flag)
    random_shuffle;;
  if sample_n l0 <=? start + batch_size then
    (* Finished epoch *)
    assign (set_epochs_completed (epochs_completed l0 + 1));;
    let rest_sample_n := sample_n l0 - start in
    l1 ← self;
    '(x_rest_part, y_rest_part) ←
      read_into_memory (py_slice (_perm l1) start (sample_n l0));
    if for_eval l0 then
      assign (set_index_in_epoch 0);;
      mret (x_rest_part, y_rest_part)
    else
      when shuffle_flag random_shuffle;;
      (* Start next epoch *)
      assign (set_index_in_epoch (batch_size - rest_sample_n));;
      let end_ := batch_size - rest_sample_n in
      l2 ← self;
      '(x_new_part, y_new_part) ←
        read_into_memory (py_slice (_perm l2) 0 end_);
      rest_len ← first_dim x_rest_part;
      if rest_len =? 0 then mret (x_new_part, y_new_part)
      else
        new_len ← first_dim x_new_part;
        if new_len =? 0 then mret (x_rest_part, y_rest_part)
        else
          y_batch ← concatenate_y y_rest_part y_new_part;
          mret (_multi_concatenate x_rest_part x_new_part, y_batch)
  else
    assign (set_index_in_epoch (start + batch_size));;
    l1 ← self;
    read_into_memory (py_slice (_perm l1) start (start + batch_size)).

(** Successive calls [next_batch(batch_size, shuffle)], with what each
    printed, shuffled and returned. *)
Fixpoint run (calls : list (Z * bool)) (w : DataLoader * RNG)
    : (DataLoader * RNG) * list (list event * option batch) :=
  match calls with
  | [] => (w, [])
  | (batch_size, shuffle_flag) :: rest =>
      let '(w1, ev, r) := next_batch batch_size shuffle_flag w in
      let '(w2, outs) := run rest w1 in
      (w2, (ev, r) :: outs)
  end.
End DataLoader_def.

Arguments DataLoader : clear implicits.

(** ** Adjacency builders *)

(** [np.sqrt(s)] of an exact integer [s]: the real number is kept as its
    radicand, and the comparisons the code makes are decided on it. *)
Record root := Sqrt { radicand : Z }.

(** [np.sqrt(s) < t] *)
Definition root_ltb (r : root) (t : Z) : bool :=
  (0 <? t) && (radicand r <? t * t).

(** [np.sqrt(a) <= np.sqrt(b)] *)
Definition root_leb (a b : root) : bool := radicand a <=? radicand b.

(** [dok_matrix((rows, cols), bool)]: a dictionary of keys; an absent key
    reads as [False], and storing [False] removes the key. *)
Record dok_matrix := { shape : nat * nat; keys : gmap (nat * nat) bool }.

Definition dok_new (rows cols : nat) : dok_matrix :=
  {| shape := (rows, cols); keys := ∅ |}.
Definition dok_get (m : dok_matrix) (i j : nat) : bool :=
  default false (keys m !! (i, j)).
Definition dok_set (i j : nat) (v : bool) (m : dok_matrix) : dok_matrix :=
  {| shape := shape m;
     keys := if v then <[(i, j) := true]> (keys m) else delete (i, j) (keys m) |}.

(** The number of [True] entries of row [i]. *)
Definition row_count (m : dok_matrix) (i : nat) : nat :=
  length (filter (fun j => dok_get m i j = true) (seq 0 (snd (shape m)))).

(** [np.where(a)[0]] *)
Definition np_where (a : list bool) : list nat :=
  filter (fun j => a !! j = Some true) (seq 0 (length a)).

(** [coordinate - coordinate[i]], row by row. *)
Definition difference_from (coordinate : list (list Z)) (i : nat)
    : list (list Z) :=
  let ci := default [] (coordinate !! i) in
  map (fun c => zip_with Z.sub c ci) coordinate.

Definition get_adjacency (coordinate : list (list Z)) (threshold_distance : Z)
    (exclude_self : bool) : dok_matrix :=
  let sample_n := length coordinate in
  foldl (fun adjacency i =>
    let difference := difference_from coordinate i in
    let difference := map (map (fun d => d * d)) difference in
    let euclidean_distance :=
      map (fun r => Sqrt (foldr Z.add 0 r)) difference in
    let adjacency_array :=
      map (fun d => root_ltb d threshold_distance) euclidean_distance in
    let adjacency_array :=
      if exclude_self then <[i := false]> adjacency_array
      else adjacency_array in
    let cols := np_where adjacency_array in
    foldl (fun adj col => dok_set i col true adj) adjacency cols)
    (dok_new sample_n sample_n) (seq 0 sample_n).

Section knearest_def.
(** [np.argsort]: the positions of the distances in non-decreasing order;
    the order among equal distances depends on the sorting routine. *)
Variable argsort : list root -> list nat.

(** [np.sqrt(difference[:,0]**2 + difference[:,1]**2)]; [IndexError] when
    the array has fewer than two columns. *)
Definition planar_distance (difference : list (list Z)) : option (list root) :=
  mapM (fun d => match d with
                 | d0 :: d1 :: _ => Some (Sqrt (d0 * d0 + d1 * d1))
                 | _ => None
                 end) difference.

Definition get_adjacency_knearest (coordinate : list (list Z)) (nearest_k : Z)
    (exclude_self : bool) : option dok_matrix :=
  let sample_n := length coordinate in
  let nearest_k := if exclude_self then nearest_k + 1 else nearest_k in
  foldl (fun acc i =>
    adjacency ← acc;
    let difference := difference_from coordinate i in
    euclidean_distance ← planar_distance difference;
    let sort_idx := argsort euclidean_distance in
    let adjacency :=
      foldl (fun adj col => dok_set i col true adj) adjacency
        (py_slice sort_idx 0 nearest_k) in
    Some (if exclude_self then dok_set i i false adjacency else adjacency))
    (Some (dok_new sample_n sample_n)) (seq 0 sample_n).
End knearest_def.

(** The sort numpy runs on short arrays, an insertion sort: among equal
    distances the smaller position comes first. *)
Fixpoint insert_sorted (k : root) (i : nat) (l : list (root * nat))
    : list (root * nat) :=
  match l with
  | [] => [(k, i)]
  | (k', i') :: t =>
      if root_leb k k' then (k, i) :: l else (k', i') :: insert_sorted k i t
  end.

Definition insertion_argsort (d : list root) : list nat :=
  (foldr (fun ki acc => insert_sorted ki.1 ki.2 acc) []
     (zip d (seq 0 (length d)))).*2.

(** ** Neighbourhood counts *)

(** A numpy array held by the caller: a matrix (list of rows) or a vector. *)
Inductive ndarray := Matrix (m : list (list Z)) | Vector (v : list Z).

(** [a.shape[0]] *)
Definition shape0 (a : ndarray) : nat :=
  match a with Matrix m => length m | Vector v => length v end.

(** [len(np.unique(label))] of an integer vector. *)
Definition unique_n (label : list Z) : nat := length (remove_dups label).

(** [one_hot = np.zeros((sample_n, label_n)); one_hot[np.arange(sample_n), label] = 1]:
    a negative column counts from the end, and a column outside
    [-label_n, label_n) raises [IndexError]. *)
Definition one_hot_rows (label_n : nat) (label : list Z)
    : option (list (list Z)) :=
  mapM (fun t =>
    let n := Z.of_nat label_n in
    if (0 <=? t) && (t <? n) then
      Some (<[Z.to_nat t := 1]> (replicate label_n 0))
    else if (- n <=? t) && (t <? 0) then
      Some (<[Z.to_nat (t + n) := 1]> (replicate label_n 0))
    else None) label.

(** [adjacency[np.eye(sample_n).astype(bool)] = 0]; the mask has to have the
    shape of the array, [IndexError] otherwise. *)
Definition is_square (m : list (list Z)) : bool :=
  forallb (fun r => Nat.eqb (length r) (length m)) m.
Definition zero_diagonal (m : list (list Z)) : list (list Z) :=
  imap (fun i r => <[i := 0]> r) m.

(** [a.dot(b)]: [ValueError] unless every row of [a] is as long as [b]. *)
Definition dot_vector (a : list (list Z)) (v : list Z) : option (list Z) :=
  if forallb (fun r => Nat.eqb (length r) (length v)) a then
    Some (map (fun r => foldr Z.add 0 (zip_with Z.mul r v)) a)
  else None.
Definition dot_matrix (a b : list (list Z)) : option (list (list Z)) :=
  if forallb (fun r => Nat.eqb (length r) (length b)) a then
    let cols := length (default [] (head b)) in
    Some (map (fun r =>
      foldr (zip_with Z.add) (replicate cols 0)
        (zip_with (fun c brow => map (Z.mul c) brow) r b)) a)
  else None.
Definition dot (a : list (list Z)) (b : ndarray) : option ndarray :=
  match b with
  | Matrix m => Matrix <$> dot_matrix a m
  | Vector v => Vector <$> dot_vector a v
  end.

(** The arguments are references into the caller's store; the call returns
    the store it leaves behind and the fresh array [nb_count] ([None]: an
    exception was raised; every exception precedes the in-place update).  An
    integer label ([one_hot_label = False]) is a vector; a two-dimensional
    label there would be index broadcasting, for which the model has no
    result. *)
Definition get_neighbourhood_count (adjacency label : positive)
    (exclude_self one_hot_label : bool) (σ : gmap positive ndarray)
    : gmap positive ndarray * option ndarray :=
  match σ !! adjacency, σ !! label with
  | Some (Matrix adj), Some lab =>
      let sample_n := length adj in
      if negb (Nat.eqb (shape0 lab) sample_n) then (σ, None)
      else
        (* [one_hot] is the label object itself, or a new array *)
        let one_hot : option (positive + ndarray) :=
          if one_hot_label then Some (inl label)
          else match lab with
               | Vector v =>
                   (fun m => inr (Matrix m)) <$> one_hot_rows (unique_n v) v
               | Matrix _ => None
               end in
        match one_hot with
        | None => (σ, None)
        | Some one_hot =>
            let masked : option (gmap positive ndarray) :=
              if exclude_self then
                if is_square adj
                then Some (<[adjacency := Matrix (zero_diagonal adj)]> σ)
                else None
              else Some σ in
            match masked with
            | None => (σ, None)
            | Some σ' =>
                (σ',
                 a ← σ' !! adjacency;
                 b ← match one_hot with inl l => σ' !! l | inr b => Some b end;
                 match a with
                 | Matrix a => dot a b
                 | Vector _ => None
                 end)
            end
        end
  | _, _ => (σ, None)
  end.

(** ** pca_reduce *)

(** The real number a [root] stands for. *)
Definition root_val (r : root) : R := sqrt (IZR (radicand r)).

Section pca_reduce_def.
Local Open Scope R_scope.

(** The sklearn estimator, outside this module: fitting and projecting. *)
Context {PCA : Type}.
Variable PCA_fit : nat -> list (list R) -> PCA.
Variable PCA_transform : PCA -> list (list R) -> list (list R).

Definition Rsum (l : list R) : R := foldr Rplus 0 l.
Definition cols (X : list (list R)) : nat := length (default [] (head X)).






End pca_reduce_def.

(** ** one_hot_vector *)

(** The two lines [one_hot_vector] prints for a label array that is not of
    integer dtype. *)
Inductive message := Dtype_message | Transfer_message.

(** [one_hot[mask, tag_idx] = 1] on an array with [class_n] columns: the
    rows selected by the boolean mask get a 1 in column [tag_idx];
    [IndexError] when the column is out of bounds, unless the mask selects
    no row. *)
Definition set_masked_column (class_n : nat) (mask : list bool)
    (tag_idx : nat) (one_hot : list (list Z)) : option (list (list Z)) :=
  if existsb (fun b : bool => b) mask && (class_n <=? tag_idx)%nat then None
  else Some (zip_with (fun (b : bool) r => if b then <[tag_idx := 1]> r else r)
               mask one_hot).

Section one_hot_vector_def.
Context {A : Type} `{EqDecision A}.
Variable list_of_set : list A -> list A.

(** [dtype_is_int] is the outcome of the test [label.dtype == np.int];
    [class_n = None] is the default argument.  [np.zeros] raises
    [ValueError] on a negative dimension.  The entries 0.0 and 1.0 of the
    float array are written as integers. *)
Definition one_hot_vector (dtype_is_int : bool) (label : list A)
    (class_n : option Z) : list message * option (list (list Z) * list A) :=
  let label_n := length label in
  let '(printed, tags) :=
    if dtype_is_int then ([], Some (list_of_set label))
    else ([Dtype_message; Transfer_message],
          snd <$> tag2int list_of_set label) in
  (printed,
   tags ← tags;
   let class_n := default (Z.of_nat (length tags)) class_n in
   if class_n <? 0 then None
   else
     let one_hot := replicate label_n (replicate (Z.to_nat class_n) 0) in
     one_hot ← foldl (fun acc '(tag_idx, tag) =>
                  one_hot ← acc;
                  set_masked_column (Z.to_nat class_n)
                    (map (fun x => bool_decide (x = tag)) label)
                    tag_idx one_hot)
                (Some one_hot) (zip (seq 0 (length tags)) tags);
     Some (one_hot, tags)).
End one_hot_vector_def.

(** ** get_knearest_distance *)

(** [a[i]] for a Python integer [i]: a negative index counts from the end,
    and [IndexError] outside [-len(a), len(a)). *)
Definition py_index {T} (a : list T) (i : Z) : option T :=
  let len := Z.of_nat (length a) in
  if (0 <=? i) && (i <? len) then a !! Z.to_nat i
  else if (- len <=? i) && (i <? 0) then a !! Z.to_nat (i + len)
  else None.

(** [np.sort] of an array of distances. *)
Fixpoint insert_root (k : root) (l : list root) : list root :=
  match l with
  | [] => [k]
  | k' :: t => if root_leb k k' then k :: l else k' :: insert_root k t
  end.

Definition np_sort (d : list root) : list root := foldr insert_root [] d.

Definition get_knearest_distance (coordinate : list (list Z)) (nearest_k : Z)
    (exclude_self : bool) : option (list root) :=
  let sample_n := length coordinate in
  let nearest_k := if exclude_self then nearest_k + 1 else nearest_k in
  foldl (fun acc i =>
    distance_list ← acc;
    let difference := difference_from coordinate i in
    euclidean_distance ← planar_distance difference;
    let sort_distance := np_sort euclidean_distance in
    d ← py_index sort_distance nearest_k;
    Some (distance_list ++ [d]))
    (Some []) (seq 0 sample_n).

(** ** KL_divergence *)

(** The line printed when the first, or the second, distribution holds a
    zero. *)
Inductive KL_message := Zero_in_first | Zero_in_second.

Section KL_divergence_def.
Local Open Scope R_scope.

(** [0 in prob] *)
Definition has_zero (prob : list R) : bool :=
  existsb (fun x => if Req_dec_T x 0 then true else false) prob.

(** [prob = prob + pesudo; prob = prob / np.sum(prob)] *)
Definition add_pesudo (pesudo : R) (prob : list R) : list R :=
  let prob := map (fun x => x + pesudo) prob in
  map (fun x => x / Rsum prob) prob.

(** In exact real arithmetic; [np.log] is [ln], which the two agree on for
    positive arguments only. *)
Definition KL_divergence (prob1 prob2 : list R) (pesudo : R)
    : list KL_message * R :=
  let '(prob1, printed1) :=
    if has_zero prob1 then (add_pesudo pesudo prob1, [Zero_in_first])
    else (prob1, []) in
  let '(prob2, printed2) :=
    if has_zero prob2 then (add_pesudo pesudo prob2, [Zero_in_second])
    else (prob2, []) in
  let kld := Rsum (zip_with (fun x y => x * ln (x / y)) prob1 prob2) in
  (printed1 ++ printed2, kld).
End KL_divergence_def.

(** ** save_smfish *)

(** [a[mask]] for a boolean mask as long as the array: the rows where the
    mask is [True]. *)
Definition masked {T} (mask : list bool) (a : list T) : list T :=
  (filter (fun p => p.1 = true) (zip mask a)).*2.

(** [a[mask, :]]: [IndexError] when the mask is not as long as the array. *)
Definition mask_rows {T} (mask : list bool) (a : list T) : option (list T) :=
  if Nat.eqb (length mask) (length a) then Some (masked mask a) else None.

Section save_smfish_def.
Local Open Scope R_scope.
Context {Gene : Type}.

(** The attributes of the loader that [save_smfish] reads. *)
Record smfish_loader := {
  gene_expression : list (list R);
  coordinate : list (list R);
  gene_list : list Gene;
  cell_labels : list Z
}.

(** The four files, each a list of lines or [None] when it was not opened.
    A line is kept as the values that are formatted into it: the number of
    the line and the entries, in exact real arithmetic. *)
Record smfish_files := {
  expression_file : option (list (nat * list R));
  coordinates_file : option (list (nat * (R * R * R)));
  genes_file : option (list Gene);
  labels_file : option (list (nat * Z))
}.

(** [np.mean(X, axis = 1, keepdims = True)] and [np.std], row by row. *)
Definition mean1 (X : list (list R)) : list R :=
  map (fun r => Rsum r / INR (length r)) X.
Definition std1 (X : list (list R)) : list R :=
  map (fun r =>
    let m := Rsum r / INR (length r) in
    sqrt (Rsum (map (fun v => Rabs (v - m) * Rabs (v - m)) r)
          / INR (length r))) X.

(** The files written and [None] when an exception ended the call.  The
    mask has the length of [gene_expression], of which [norm_expr] and
    [std_expr] are computed, so only the indexing of [loader.coordinate]
    can fail. *)
Definition save_smfish (loader : smfish_loader) (is_labeled : bool)
    : smfish_files * option unit :=
  let norm_expr :=
    zip_with (fun r m => map (fun v => v - m) r)
      (gene_expression loader) (mean1 (gene_expression loader)) in
  let std_expr := std1 (gene_expression loader) in
  let zero_mask :=
    map (fun s => if Req_dec_T s 0 then false else true) std_expr in
  let norm_expr :=
    zip_with (fun r s => map (fun v => v / s) r)
      (masked zero_mask norm_expr) (masked zero_mask std_expr) in
  let expression := imap (fun i expr => (S i, expr)) norm_expr in
  match mask_rows zero_mask (coordinate loader) with
  | None =>
      ({| expression_file := Some expression; coordinates_file := None;
          genes_file := None; labels_file := None |}, None)
  | Some coordinate =>
      let at_ (p : list R) (k : nat) := default 0 (p !! k) in
      let coordinates :=
        match length (default [] (head coordinate)) with
        | 2%nat => imap (fun i p => (S i, (0, at_ p 0%nat, at_ p 1%nat)))
                     coordinate
        | 3%nat => imap (fun i p => (S i, (at_ p 2%nat, at_ p 0%nat,
                                           at_ p 1%nat))) coordinate
        | _ => []
        end in
      ({| expression_file := Some expression;
          coordinates_file := Some coordinates;
          genes_file := Some (gene_list loader);
          labels_file :=
            if is_labeled
            then Some (imap (fun i c => (S i, c)) (cell_labels loader))
            else None |}, Some tt)
  end.
End save_smfish_def.

Arguments smfish_loader : clear implicits.
Arguments smfish_files : clear implicits.

(** ** Specification vocabulary *)

Section DataLoader_spec.
Context {A B : Type}.

(** The data of a loader is consistent: a non-empty tuple of arrays of
    [sample_n] rows, labels of the same length unless the loader is for
    evaluation, and [_perm] a permutation of [0 .. sample_n - 1]. *)
Record loader_ok (l : DataLoader A B) : Prop := {
  ok_xs : xs l <> [];
  ok_rows : Forall (fun x => Z.of_nat (length x) = sample_n l) (xs l);
  ok_y : for_eval l = false ->
         exists yv, y l = Some yv /\ Z.of_nat (length yv) = sample_n l;
  ok_perm : _perm l ≡ₚ seq 0 (Z.to_nat (sample_n l));
  ok_epochs : 0 <= epochs_completed l
}.

Definition index_ok (l : DataLoader A B) : Prop :=
  0 <= _index_in_epoch l < sample_n l.

(** A call leaves the arrays, the labels and the mode of the loader alone. *)
Definition same_data (l l' : DataLoader A B) : Prop :=
  xs l' = xs l /\ y l' = y l /\ sample_n l' = sample_n l /\
  for_eval l' = for_eval l.

(** The sample positions of a training batch that starts at [start]: a
    window of the permutation [p1] of the current epoch, continued, when it
    reaches the end, by the first positions of the permutation [p2] of the
    next epoch. *)
Definition batch_positions (p1 p2 : list nat) (n start batch_size : Z)
    : list nat :=
  if n <=? start + batch_size
  then py_slice p1 start n ++ py_slice p2 0 (start + batch_size - n)
  else py_slice p1 start (start + batch_size).


(** A batch holds the rows of every array, and the labels, at [positions]. *)
Definition batch_at (l : DataLoader A B) (positions : list nat)
    (b : list (list A) * option (list B)) : Prop :=
  Forall2 (fun x bx => take_rows x positions = Some bx) (xs l) b.1 /\
  exists yv by_, y l = Some yv /\ b.2 = Some by_ /\
                 take_rows yv positions = Some by_.

(** The first dimension of what a call returned, and the number of samples
    a sequence of calls has served. *)
Definition batch_len (r : option (list (list A) * option (list B))) : Z :=
  match r with
  | Some (x0 :: _, _) => Z.of_nat (length x0)
  | _ => 0
  end.
Definition served
    (outs : list (list event * option (list (list A) * option (list B))))
    : Z :=
  foldr (fun o acc => batch_len o.2 + acc) 0 outs.

Definition total_size (calls : list (Z * bool)) : Z :=
  foldr (fun c acc => c.1 + acc) 0 calls.
End DataLoader_spec.

(** The Euclidean distance of two points with integer coordinates, and the
    distance of their projections on the first two axes, as real numbers. *)
Definition euclidean (p q : list Z) : R :=
  sqrt (Rsum (zip_with (fun a b => (IZR b - IZR a) * (IZR b - IZR a))%R p q)).

Definition planar (p q : list Z) : R :=
  match p, q with
  | p0 :: p1 :: _, q0 :: q1 :: _ =>
      sqrt ((IZR q0 - IZR p0) * (IZR q0 - IZR p0) +
            (IZR q1 - IZR p1) * (IZR q1 - IZR p1))%R
  | _, _ => 0%R
  end.

(** Entry [(i, j)] of a matrix. *)
Definition entry (m : list (list Z)) (i j : nat) : option Z :=
  r ← m !! i; r !! j.

(** An [n]-by-[k] matrix of zeros and ones. *)
Definition is_01 (n k : nat) (m : list (list Z)) : Prop :=
  length m = n /\
  Forall (fun r => length r = k /\ Forall (fun e => e = 0 \/ e = 1) r) m.

(** Sample [j] has label [m]: column [m] of row [j] of a one-hot label is 1,
    or entry [j] of an integer label is [m]. *)
Definition has_label (label : ndarray) (j m : nat) : bool :=
  match label with
  | Matrix one_hot => bool_decide (entry one_hot j m = Some 1)
  | Vector v => bool_decide (v !! j = Some (Z.of_nat m))
  end.

(** The label argument fits the flag: a zero-one matrix of [n] rows and
    [m] columns, or a vector of [n] integers below [m], the number of
    distinct ones. *)
Definition label_ok (one_hot_label : bool) (n m : nat) (label : ndarray)
    : Prop :=
  match one_hot_label, label with
  | true, Matrix one_hot => is_01 n m one_hot
  | false, Vector v =>
      length v = n /\ m = unique_n v /\
      Forall (fun t => 0 <= t < Z.of_nat m) v
  | _, _ => False
  end.

(** The number of samples [j] adjacent to [i] with label [m], [i] itself
    left out when [exclude_self] is set. *)
Definition neighbour_count (adjacency : list (list Z)) (label : ndarray)
    (exclude_self : bool) (i m : nat) : Z :=
  Z.of_nat (length (filter
    (fun j => bool_decide (entry adjacency i j = Some 1) &&
              has_label label j m &&
              (negb exclude_self || negb (Nat.eqb j i)) = true)
    (seq 0 (length adjacency)))).

(** What [np.argsort] guarantees: the result is a permutation of the
    positions, and the distances along it do not decrease. *)
Definition argsort_ok (argsort : list root -> list nat) : Prop :=
  forall d,
    argsort d ≡ₚ seq 0 (length d) /\
    forall a b ia ib da db,
      (a <= b)%nat ->
      argsort d !! a = Some ia -> argsort d !! b = Some ib ->
      d !! ia = Some da -> d !! ib = Some db ->
      root_leb da db = true.

(** One turn of the loop of [get_adjacency_knearest] over the rows, and the
    columns it sets in row [i] before the diagonal entry is cleared. *)
Definition knearest_cols (argsort : list root -> list nat)
    (coordinate : list (list Z)) (k : Z) (i : nat) : list nat :=
  match planar_distance (difference_from coordinate i) with
  | Some d => py_slice (argsort d) 0 k
  | None => []
  end.

Definition knearest_step (argsort : list root -> list nat)
    (coordinate : list (list Z)) (k : Z) (exclude_self : bool)
    (acc : option dok_matrix) (i : nat) : option dok_matrix :=
  adjacency ← acc;
  euclidean_distance ← planar_distance (difference_from coordinate i);
  let adjacency :=
    foldl (fun adj col => dok_set i col true adj) adjacency
      (py_slice (argsort euclidean_distance) 0 k) in
  Some (if exclude_self then dok_set i i false adjacency else adjacency).

(** The order of the insertion sort on (distance, position) pairs. *)
Definition key_le (x y : root * nat) : Prop := radicand x.1 <= radicand y.1.

(** No two points share their first two coordinates. *)
Definition distinct_points (coordinate : list (list Z)) : Prop :=
  forall i j ci cj,
    coordinate !! i = Some ci -> coordinate !! j = Some cj ->
    planar ci cj = 0%R -> i = j.

(** ** Sample data

    A generator that reverses the permutation at every shuffle, a training
    loader and an evaluation loader over two arrays of three rows, a store
    with an adjacency matrix and two labellings, and a small real matrix. *)
Definition rev_shuffle (g : unit) (p : list nat) : list nat * unit := (rev p, g).

Definition sample_xs : list (list nat) := [[10; 11; 12]; [20; 21; 22]]%nat.
Definition sample_y : list nat := [0; 1; 2]%nat.

Definition sample_loader (for_eval0 : bool) : DataLoader nat nat :=
  {| xs := sample_xs; y := if for_eval0 then None else Some sample_y;
     epochs_completed := 0; _index_in_epoch := 0; sample_n := 3;
     _perm := [0; 1; 2]%nat; for_eval := for_eval0 |}.

Definition sample_adjacency : list (list Z) := [[1; 1; 0]; [1; 1; 1]; [0; 1; 1]].

Definition sample_store : gmap positive ndarray :=
  {[ 1%positive := Matrix sample_adjacency;
     2%positive := Vector [0; 1; 1];
     3%positive := Matrix [[1; 0]; [0; 1]; [0; 1]] ]}.


(** ** Vocabulary of the further properties *)

Section DataLoader_streams.
Context {A B : Type}.

(** A call returned the rows of every array at [positions], with the labels
    at the same positions for a training loader and [None] for an
    evaluation loader. *)
Definition returned_at (l : DataLoader A B) (positions : list nat)
    (out : list event * option (list (list A) * option (list B))) : Prop :=
  exists bx by_,
    out.2 = Some (bx, by_) /\
    Forall2 (fun x b => take_rows x positions = Some b) (xs l) bx /\
    if for_eval l then by_ = None
    else exists yv b, y l = Some yv /\ by_ = Some b /\
                      take_rows yv positions = Some b.
End DataLoader_streams.



(** What one turn of the loop of [get_knearest_distance] appends for
    point [i]. *)
Definition kth_distance (coordinate : list (list Z)) (k : Z) (i : nat)
    : option root :=
  d ← planar_distance (difference_from coordinate i);
  py_index (np_sort d) k.

(** The mean and the standard deviation of a row, and whether the row
    varies at all. *)
Definition row_mean (r : list R) : R := (Rsum r / INR (length r))%R.
Definition row_std (r : list R) : R :=
  sqrt (Rsum (map (fun v => (v - row_mean r) * (v - row_mean r))%R r)
        / INR (length r)).
Definition varies (r : list R) : bool :=
  if Req_dec_T (row_std r) 0 then false else true.

(** A row with its mean subtracted, divided by its standard deviation. *)
Definition standard_row (r : list R) : list R :=
  map (fun v => ((v - row_mean r) / row_std r)%R) r.

(** A training loader built without labels, as [DataLoader(xs)] gives. *)
Definition sample_unlabelled : DataLoader nat nat :=
  {| xs := sample_xs; y := None;
     epochs_completed := 0; _index_in_epoch := 0; sample_n := 3;
     _perm := [0; 1; 2]%nat; for_eval := false |}.

(** The labels [3; 1; 3] in the store, as integers and as one-hot rows. *)
Definition sample_label_store : gmap positive ndarray :=
  {[ 1%positive := Matrix sample_adjacency;
     2%positive := Vector [0; 1; 0];
     3%positive := Matrix [[1; 0]; [0; 1]; [1; 0]] ]}.

(** Three cells and two genes; the second cell does not vary. *)
Definition sample_smfish : smfish_loader nat :=
  {| gene_expression := [[1; 3]; [2; 2]; [0; 4]]%R;
     coordinate := [[0; 0]; [1; 0]; [0; 1]]%R;
     gene_list := [7; 8]%nat;
     cell_labels := [0; 1; 0] |}.

(** * Properties *)

(** ** The code on small inputs *)

Example next_batch_ex :
  (l ← __init__ [[10; 11; 12]%nat; [20; 21; 22]%nat] (Some [0; 1; 2]%nat) false;
   Some (snd (run (fun (g : unit) p => (rev p, g))
                [(2, true); (2, true)] (l, tt)))) =
  Some [([Shuffled], Some ([[12; 11]; [22; 21]]%nat, Some [2; 1]%nat));
        ([Shuffled], Some ([[10; 10]; [20; 20]]%nat, Some [0; 0]%nat))].
Proof. vm_compute. reflexivity. Qed.

Example get_adjacency_ex :
  let a := get_adjacency [[0; 0]; [3; 4]; [0; 1]] 5 true in
  map (fun i => map (dok_get a i) [0; 1; 2]%nat) [0; 1; 2]%nat =
  [[false; false; true]; [false; false; true]; [true; true; false]].
Proof. vm_compute. reflexivity. Qed.

Example get_adjacency_knearest_ex :
  (a ← get_adjacency_knearest insertion_argsort [[0; 0]; [3; 4]; [0; 1]] 1 true;
   Some (map (fun i => map (dok_get a i) [0; 1; 2]%nat) [0; 1; 2]%nat)) =
  Some [[false; false; true]; [false; false; true]; [true; false; false]].
Proof. vm_compute. reflexivity. Qed.

Example get_neighbourhood_count_ex :
  let σ : gmap positive ndarray :=
    {[ 1%positive := Matrix [[1; 1; 0]; [1; 1; 1]; [0; 1; 1]];
       2%positive := Vector [0; 1; 1] ]} in
  let '(σ', r) := get_neighbourhood_count 1 2 true false σ in
  (σ' !! 1%positive, σ' !! 2%positive, r) =
  (Some (Matrix [[0; 1; 0]; [1; 0; 1]; [0; 1; 0]]), Some (Vector [0; 1; 1]),
   Some (Matrix [[0; 1]; [1; 1]; [0; 1]])).
Proof. vm_compute. reflexivity. Qed.

(** ** tag2int *)

Section tag2int_facts.
Context {A : Type} `{EqDecision A}.

Lemma index_elem_of (tags : list A) (x : A) :
  x ∈ tags ->
  exists k, index tags x = Some k /\ tags !! k = Some x.
Proof.
  induction tags as [|t ts IH]; intros Hin; [by apply elem_of_nil in Hin|].
  simpl. destruct (decide (t = x)) as [->|Hne].
  - by exists 0%nat.
  - apply elem_of_cons in Hin as [->|Hin]; [done|].
    destruct (IH Hin) as (k & -> & Hk). by exists (S k).
Qed.

Variable list_of_set : list A -> list A.
Hypothesis list_of_set_NoDup : forall l, NoDup (list_of_set l).
Hypothesis list_of_set_elem : forall l x, x ∈ list_of_set l <-> x ∈ l.

(** C8: [tag2int] returns the duplicate-free list of the distinct labels
    and, for every position, an index below [len(tags)] at which [tags]
    holds the label of that position. *)
Theorem tag2int_roundtrip (label : list A) :
  exists int_label tags,
    tag2int list_of_set label = Some (int_label, tags) /\
    NoDup tags /\
    (forall x, x ∈ tags <-> x ∈ label) /\
    length int_label = length label /\
    forall i x, label !! i = Some x ->
      exists k, int_label !! i = Some k /\ (k < length tags)%nat /\
                tags !! k = Some x.
Proof.
  unfold tag2int. set (tags := list_of_set label).
  assert (Hall : Forall (is_Some ∘ index tags) label).
  { apply Forall_forall. intros x Hx. simpl.
    destruct (index_elem_of tags x) as (k & -> & _); [|done].
    by apply list_of_set_elem. }
  apply mapM_is_Some in Hall as [int_label Hmap].
  exists int_label, tags. rewrite Hmap. simpl.
  apply mapM_Some in Hmap.
  repeat split; [apply list_of_set_NoDup|apply list_of_set_elem..| |].
  - symmetry. by eapply Forall2_length.
  - intros i x Hi.
    destruct (Forall2_lookup_l _ _ _ _ _ Hmap Hi) as (k & Hk & Hidx).
    exists k. split; [done|].
    destruct (index_elem_of tags x) as (k' & Hk' & Hlook).
    { apply list_of_set_elem. by eapply list_elem_of_lookup_2. }
    assert (k' = k) as -> by congruence.
    split; [by eapply lookup_lt_Some|done].
Qed.
End tag2int_facts.

Lemma gset_order_NoDup `{Countable A} (l : list A) : NoDup (gset_order l).
Proof. apply NoDup_elements. Qed.

Lemma gset_order_elem `{Countable A} (l : list A) (x : A) :
  x ∈ gset_order l <-> x ∈ l.
Proof. unfold gset_order. by rewrite elem_of_elements, elem_of_list_to_set. Qed.

Lemma tag2int_roundtrip_witness :
  exists int_label tags,
    tag2int gset_order [3; 1; 3]%nat = Some (int_label, tags) /\
    NoDup tags /\
    (forall x, x ∈ tags <-> x ∈ [3; 1; 3]%nat) /\
    length int_label = length [3; 1; 3]%nat /\
    forall i x, [3; 1; 3]%nat !! i = Some x ->
      exists k, int_label !! i = Some k /\ (k < length tags)%nat /\
                tags !! k = Some x.
Proof.
  apply (tag2int_roundtrip gset_order gset_order_NoDup gset_order_elem).
Defined.

(** ** Slices and row selection *)

Lemma py_slice_range {A} (l : list A) (lo hi : Z) :
  0 <= lo <= hi -> hi <= Z.of_nat (length l) ->
  py_slice l lo hi = take (Z.to_nat (hi - lo)) (drop (Z.to_nat lo) l) /\
  Z.of_nat (length (py_slice l lo hi)) = hi - lo.
Proof.
  intros Hlo Hhi. unfold py_slice, slice_bound.
  destruct (Z.ltb_spec lo 0), (Z.ltb_spec hi 0); try lia.
  rewrite !Z.min_l by lia. split; [done|].
  rewrite length_take, length_drop. lia.
Qed.

Lemma py_slice_sub {A} (l : list A) (lo hi : Z) : py_slice l lo hi ⊆ l.
Proof.
  unfold py_slice. intros x Hx.
  apply elem_of_take in Hx as (i & Hx & _).
  rewrite lookup_drop in Hx. by eapply list_elem_of_lookup_2.
Qed.

Lemma take_rows_Some {A} (x : list A) (positions : list nat) :
  Forall (fun i => (i < length x)%nat) positions ->
  exists r, take_rows x positions = Some r /\ length r = length positions.
Proof.
  intros Hall. unfold take_rows.
  destruct (mapM_is_Some_2 (fun i => x !! i) positions) as [r Hr].
  { eapply Forall_impl; [exact Hall|]. intros i Hi. by apply lookup_lt_is_Some_2. }
  exists r. split; [done|]. symmetry. by eapply length_mapM.
Qed.

Lemma take_rows_app {A} (x : list A) (p q : list nat) (r s : list A) :
  take_rows x p = Some r -> take_rows x q = Some s ->
  take_rows x (p ++ q) = Some (r ++ s).
Proof.
  unfold take_rows. rewrite !mapM_Some. apply Forall2_app.
Qed.

Lemma take_rows_length {A} (x : list A) (p : list nat) (r : list A) :
  take_rows x p = Some r -> length r = length p.
Proof. intros Hr. symmetry. by eapply length_mapM. Qed.

(** ** The loader *)

Section DataLoader_facts.
Context {A B RNG : Type}.
Variable shuffle : RNG -> list nat -> list nat * RNG.
Hypothesis shuffle_perm : forall g p, (shuffle g p).1 ≡ₚ p.

Implicit Types (l : DataLoader A B) (g : RNG).

Lemma read_into_memory_ok l g (positions : list nat) :
  loader_ok l ->
  Forall (fun i => (Z.of_nat i < sample_n l)) positions ->
  exists bx by_,
    read_into_memory positions (l, g) = ((l, g), [], Some (bx, by_)) /\
    Forall2 (fun x b => take_rows x positions = Some b) (xs l) bx /\
    Forall (fun b => length b = length positions) bx /\
    bx <> [] /\
    (if for_eval l then by_ = None
     else exists yv b, y l = Some yv /\ by_ = Some b /\
                       take_rows yv positions = Some b /\
                       length b = length positions).
Proof.
  intros Hok Hpos.
  assert (Hx : exists bx, mapM (fun x => take_rows x positions) (xs l) = Some bx).
  { apply mapM_is_Some_2. eapply Forall_impl; [apply (ok_rows _ Hok)|].
    intros x Hx. simpl. destruct (take_rows_Some x positions) as (r & -> & _); [|done].
    eapply Forall_impl; [exact Hpos|]. intros i Hi. simpl in *. lia. }
  destruct Hx as [bx Hbx].
  assert (Hbx2 := Hbx). apply mapM_Some in Hbx2.
  assert (Hlen : Forall (fun b => length b = length positions) bx).
  { clear -Hbx2. induction Hbx2; constructor; [by eapply take_rows_length|done]. }
  assert (Hne : bx <> []).
  { intros ->. apply Forall2_nil_inv_r in Hbx2. by apply (ok_xs _ Hok). }
  unfold read_into_memory, mbind, M_bind, self, mret, M_ret. simpl.
  destruct (for_eval l) eqn:Hev; simpl.
  - rewrite Hbx. simpl. by exists bx, None.
  - destruct (ok_y _ Hok Hev) as (yv & Hy & Hylen). rewrite Hy.
    destruct (take_rows_Some yv positions) as (b & Hb & Hblen).
    { eapply Forall_impl; [exact Hpos|]. intros i Hi. simpl in *. lia. }
    rewrite Hb. simpl. rewrite Hbx. simpl.
    exists bx, (Some b). repeat split; try done. by exists yv, b.
Qed.

Lemma loader_ok_set_perm l (p : list nat) :
  loader_ok l -> p ≡ₚ _perm l -> loader_ok (set_perm p l).
Proof.
  intros [H1 H2 H3 H4 H5] Hp. split; simpl; try done. by rewrite Hp.
Qed.

Lemma loader_ok_set_index l (v : Z) :
  loader_ok l -> loader_ok (set_index_in_epoch v l).
Proof. intros [H1 H2 H3 H4 H5]. by split. Qed.

Lemma loader_ok_set_epochs l (v : Z) :
  loader_ok l -> 0 <= v -> loader_ok (set_epochs_completed v l).
Proof. intros [H1 H2 H3 H4 H5] Hv. by split. Qed.

Lemma loader_ok_positions l (lo hi : Z) :
  loader_ok l ->
  Forall (fun i => Z.of_nat i < sample_n l) (py_slice (_perm l) lo hi).
Proof.
  intros Hok. apply Forall_forall. intros i Hi.
  apply py_slice_sub in Hi. rewrite (ok_perm _ Hok) in Hi.
  apply elem_of_seq in Hi. lia.
Qed.

Lemma loader_ok_perm_length l :
  loader_ok l -> Z.of_nat (length (_perm l)) = Z.max 0 (sample_n l).
Proof. intros Hok. rewrite (ok_perm _ Hok), length_seq. lia. Qed.

Lemma Forall2_take_rows_app (xs0 : list (list A)) (p q : list nat)
    (b1 b2 : list (list A)) :
  Forall2 (fun x b => take_rows x p = Some b) xs0 b1 ->
  Forall2 (fun x b => take_rows x q = Some b) xs0 b2 ->
  Forall2 (fun x b => take_rows x (p ++ q) = Some b) xs0
    (_multi_concatenate b1 b2).
Proof.
  intros H1. revert b2. induction H1; intros b2 H2; inversion H2; subst.
  - constructor.
  - simpl. constructor; [by apply take_rows_app|by apply IHForall2].
Qed.

Lemma when_shuffle (c : bool) l g :
  when c (random_shuffle shuffle) (l, g) =
  ((set_perm (if c then shuffle g (_perm l) else (_perm l, g)).1 l,
    (if c then shuffle g (_perm l) else (_perm l, g)).2),
   if c then [Shuffled] else [], Some tt).
Proof.
  destruct l, c; unfold when, random_shuffle; simpl; [|done].
  by destruct (shuffle _ _).
Qed.

Lemma next_batch_train l g (batch_size : Z) (sh : bool) :
  loader_ok l -> index_ok l -> for_eval l = false ->
  1 <= batch_size <= sample_n l ->
  let first := (epochs_completed l =? 0) && (_index_in_epoch l =? 0) && sh in
  let s1 := if first then shuffle g (_perm l) else (_perm l, g) in
  let finished := sample_n l <=? _index_in_epoch l + batch_size in
  let s2 := if finished && sh then shuffle s1.2 s1.1 else s1 in
  exists l' b,
    next_batch shuffle batch_size sh (l, g) =
      ((l', s2.2),
       (if first then [Shuffled] else []) ++
       (if finished && sh then [Shuffled] else []), Some b) /\
    same_data l l' /\ _perm l' = s2.1 /\
    epochs_completed l' = epochs_completed l + (if finished then 1 else 0) /\
    _index_in_epoch l' =
      (if finished then _index_in_epoch l + batch_size - sample_n l
       else _index_in_epoch l + batch_size) /\
    batch_at l (batch_positions s1.1 s2.1 (sample_n l) (_index_in_epoch l)
                  batch_size) b /\
    loader_ok l' /\ index_ok l'.
Proof.
  intros Hok Hidx Hev Hbs first s1 finished s2.
  unfold next_batch. unfold mbind at 1 2 3. unfold M_bind at 1 2 3.
  unfold self at 1. cbn [fst snd].
  rewrite Hev, andb_false_r. cbn [when mret M_ret].
  fold first. rewrite when_shuffle. fold s1.
  assert (Hs1 : s1.1 ≡ₚ _perm l).
  { subst s1. destruct first; [apply shuffle_perm|done]. }
  assert (Hs2 : s2.1 ≡ₚ _perm l).
  { subst s2. destruct (finished && sh); [by rewrite shuffle_perm|done]. }
  pose proof (loader_ok_set_perm l _ Hok Hs1) as Hok1.
  clearbody s1 first. destruct s1 as [p1 g1]. cbn [fst snd] in *.
  fold finished. destruct finished eqn:Hfin; subst finished.
  - (* the call finishes the epoch *)
    apply Z.leb_le in Hfin. destruct Hidx as [Hi0 Hin].
    unfold mbind at 1 2 3. unfold M_bind at 1 2 3. unfold assign at 1, self at 1.
    cbn [fst snd].
    set (l2 := set_epochs_completed _ _).
    assert (Hok2 : loader_ok l2).
    { apply loader_ok_set_epochs; [done|]. pose proof (ok_epochs _ Hok). lia. }
    destruct (read_into_memory_ok l2 g1 _ Hok2
                (loader_ok_positions l2 (_index_in_epoch l) (sample_n l) Hok2))
      as (bx1 & by1 & Hr1 & Hbx1 & Hlen1 & Hne1 & Hy1).
    rewrite Hr1. cbn beta iota zeta.
    unfold mbind at 1 2 3. unfold M_bind at 1 2 3.
    rewrite when_shuffle. cbn [andb] in s2.
    change (_perm l2) with p1 in *. fold s2.
    unfold assign at 1, self at 1. cbn [fst snd].
    set (l3 := set_index_in_epoch _ _).
    assert (Hok3 : loader_ok l3).
    { apply loader_ok_set_index, loader_ok_set_perm; [done|].
      cbn. by rewrite Hs2. }
    destruct (read_into_memory_ok l3 s2.2 _ Hok3
                (loader_ok_positions l3 0
                   (batch_size - (sample_n l - _index_in_epoch l)) Hok3))
      as (bx2 & by2 & Hr2 & Hbx2 & Hlen2 & Hne2 & Hy2).
    change (_perm l3) with s2.1 in *.
    change (for_eval l3) with (for_eval l) in *.
    change (for_eval l2) with (for_eval l) in *.
    change (y l3) with (y l) in *. change (y l2) with (y l) in *.
    change (xs l3) with (xs l) in *. change (xs l2) with (xs l) in *.
    rewrite Hev in Hy1, Hy2.
    destruct Hy1 as (yv & b1 & Hyv & -> & Hb1 & Hb1len).
    destruct Hy2 as (yv' & b2 & Hyv' & -> & Hb2 & Hb2len).
    assert (yv' = yv) as -> by congruence.
    unfold mbind at 1. unfold M_bind at 1. rewrite Hr2. cbn beta iota zeta.
    (* the sizes of the two parts *)
    pose proof (loader_ok_perm_length _ Hok) as Hplen.
    assert (Hp1len : Z.of_nat (length p1) = sample_n l)
      by (rewrite Hs1; lia).
    assert (Hp2len : Z.of_nat (length s2.1) = sample_n l)
      by (rewrite Hs2; lia).
    destruct (py_slice_range p1 (_index_in_epoch l) (sample_n l))
      as [_ Hrest]; [lia..|].
    destruct (py_slice_range s2.1 0
                (batch_size - (sample_n l - _index_in_epoch l)))
      as [_ Hnew]; [lia..|].
    destruct bx1 as [|x1 bx1]; [done|]. destruct bx2 as [|x2 bx2]; [done|].
    apply Forall_cons in Hlen1 as [Hx1 Hlen1].
    apply Forall_cons in Hlen2 as [Hx2 Hlen2].
    unfold mbind at 1. unfold M_bind at 1. unfold first_dim at 1.
    cbn [mret M_ret].
    destruct (Z.eqb_spec (Z.of_nat (length x1)) 0) as [Hz|_]; [lia|].
    unfold mbind at 1. unfold M_bind at 1. unfold first_dim at 1.
    cbn [mret M_ret].
    unfold batch_positions. destruct (Z.leb_spec (sample_n l)
      (_index_in_epoch l + batch_size)) as [_|]; [|lia].
    replace (_index_in_epoch l + batch_size - sample_n l)
      with (batch_size - (sample_n l - _index_in_epoch l)) by lia.
    destruct (Z.eqb_spec (Z.of_nat (length x2)) 0) as [Hz|Hnz].
    + (* nothing is taken from the next epoch *)
      assert (Hnil : py_slice s2.1 0
                       (batch_size - (sample_n l - _index_in_epoch l)) = []).
      { apply length_zero_iff_nil. lia. }
      exists l3, (x1 :: bx1, Some b1). rewrite Hnil, app_nil_r.
      split_and!; try done; try (cbn; lia).
      * cbn [mret M_ret andb app]. by rewrite ?app_nil_r.
      * split; [done|]. by exists yv, b1.
      * split; cbn; lia.
    + unfold mbind at 1. unfold M_bind at 1. cbn [concatenate_y mret M_ret].
      exists l3, (_multi_concatenate (x1 :: bx1) (x2 :: bx2), Some (b1 ++ b2)).
      split_and!; try done; try (cbn; lia).
      * cbn [mret M_ret andb app]. by rewrite ?app_nil_r.
      * split; [by apply Forall2_take_rows_app|].
        exists yv, (b1 ++ b2). split_and!; try done.
        by apply take_rows_app.
      * split; cbn; lia.
  - (* the batch lies within the epoch *)
    apply Z.leb_gt in Hfin. destruct Hidx as [Hi0 Hin].
    unfold mbind at 1 2. unfold M_bind at 1 2. unfold assign at 1, self at 1.
    cbn [fst snd andb] in *.
    set (l2 := set_index_in_epoch _ _).
    assert (Hok2 : loader_ok l2) by by apply loader_ok_set_index.
    destruct (read_into_memory_ok l2 g1 _ Hok2
                (loader_ok_positions l2 (_index_in_epoch l)
                   (_index_in_epoch l + batch_size) Hok2))
      as (bx1 & by1 & Hr1 & Hbx1 & Hlen1 & Hne1 & Hy1).
    rewrite Hr1. cbn beta iota zeta.
    change (_perm l2) with p1 in *.
    change (for_eval l2) with (for_eval l) in *.
    change (y l2) with (y l) in *. change (xs l2) with (xs l) in *.
    rewrite Hev in Hy1.
    destruct Hy1 as (yv & b1 & Hyv & -> & Hb1 & Hb1len).
    exists l2, (bx1, Some b1).
    unfold batch_positions. destruct (Z.leb_spec (sample_n l)
      (_index_in_epoch l + batch_size)) as [|_]; [lia|].
    split_and!; try done; try (cbn; lia).
    + split; [done|]. by exists yv, b1.
    + split; cbn; lia.
Qed.

Lemma py_slice_rest_length (p : list nat) (n start batch_size : Z) :
  Z.of_nat (length p) = n -> start <= n -> n <= start + batch_size ->
  Z.of_nat (length (py_slice p start n)) <= batch_size.
Proof.
  intros Hp Hs Hb. unfold py_slice, slice_bound.
  rewrite length_take, length_drop.
  destruct (Z.ltb_spec start 0), (Z.ltb_spec n 0); lia.
Qed.

Lemma next_batch_eval l g (batch_size : Z) (sh : bool) :
  loader_ok l -> for_eval l = true -> _index_in_epoch l <= sample_n l ->
  let warn := 1 <=? epochs_completed l in
  let first := (epochs_completed l =? 0) && (_index_in_epoch l =? 0) && sh in
  let s1 := if first then shuffle g (_perm l) else (_perm l, g) in
  let finished := sample_n l <=? _index_in_epoch l + batch_size in
  exists l' bx,
    next_batch shuffle batch_size sh (l, g) =
      ((l', s1.2),
       (if warn then [Warning] else []) ++
       (if first then [Shuffled] else []), Some (bx, None)) /\
    same_data l l' /\ _perm l' = s1.1 /\
    epochs_completed l' = epochs_completed l + (if finished then 1 else 0) /\
    _index_in_epoch l' =
      (if finished then 0 else _index_in_epoch l + batch_size) /\
    Forall2 (fun x b =>
      take_rows x (py_slice s1.1 (_index_in_epoch l)
                     (if finished then sample_n l
                      else _index_in_epoch l + batch_size)) = Some b)
      (xs l) bx /\
    (finished = true ->
     Forall (fun b => Z.of_nat (length b) <= batch_size) bx) /\
    loader_ok l' /\ _index_in_epoch l' <= sample_n l'.
Proof.
  intros Hok Hev Hidx warn first s1 finished.
  unfold next_batch. unfold mbind at 1 2 3. unfold M_bind at 1 2 3.
  unfold self at 1. cbn [fst snd].
  rewrite Hev, andb_true_r. fold warn first.
  replace (when warn (emit Warning) (l, g))
    with ((l, g), (if warn then [Warning] else []), Some tt)
    by by destruct warn.
  rewrite when_shuffle. fold s1.
  assert (Hs1 : s1.1 ≡ₚ _perm l).
  { subst s1. destruct first; [apply shuffle_perm|done]. }
  pose proof (loader_ok_set_perm l _ Hok Hs1) as Hok1.
  clearbody s1 first warn. destruct s1 as [p1 g1]. cbn [fst snd] in *.
  pose proof (loader_ok_perm_length _ Hok) as Hplen.
  assert (Hn : 0 <= sample_n l).
  { destruct Hok as [Hne Hrows _ _ _]. destruct (xs l); [done|].
    apply Forall_cons in Hrows as [? _]. lia. }
  assert (Hp1len : Z.of_nat (length p1) = sample_n l) by (rewrite Hs1; lia).
  fold finished. destruct finished eqn:Hfin; subst finished.
  - apply Z.leb_le in Hfin.
    unfold mbind at 1 2 3. unfold M_bind at 1 2 3. unfold assign at 1, self at 1.
    cbn [fst snd].
    set (l2 := set_epochs_completed _ _).
    assert (Hok2 : loader_ok l2).
    { apply loader_ok_set_epochs; [done|]. pose proof (ok_epochs _ Hok). lia. }
    destruct (read_into_memory_ok l2 g1 _ Hok2
                (loader_ok_positions l2 (_index_in_epoch l) (sample_n l) Hok2))
      as (bx1 & by1 & Hr1 & Hbx1 & Hlen1 & Hne1 & Hy1).
    rewrite Hr1. cbn beta iota zeta.
    change (_perm l2) with p1 in *.
    change (for_eval l2) with (for_eval l) in *.
    change (xs l2) with (xs l) in *.
    rewrite Hev in Hy1. subst by1.
    exists (set_index_in_epoch 0 l2), bx1.
    split_and!; try done; try (cbn; lia).
    + unfold mbind, M_bind, assign. cbn [mret M_ret andb app fst snd].
      by rewrite ?app_nil_r.
    + intros _. eapply Forall_impl; [exact Hlen1|]. intros b ->.
      by apply py_slice_rest_length.
    + by apply loader_ok_set_index.
  - apply Z.leb_gt in Hfin.
    unfold mbind at 1 2. unfold M_bind at 1 2. unfold assign at 1, self at 1.
    cbn [fst snd andb] in *.
    set (l2 := set_index_in_epoch _ _).
    assert (Hok2 : loader_ok l2) by by apply loader_ok_set_index.
    destruct (read_into_memory_ok l2 g1 _ Hok2
                (loader_ok_positions l2 (_index_in_epoch l)
                   (_index_in_epoch l + batch_size) Hok2))
      as (bx1 & by1 & Hr1 & Hbx1 & Hlen1 & Hne1 & Hy1).
    rewrite Hr1. cbn beta iota zeta.
    change (_perm l2) with p1 in *.
    change (for_eval l2) with (for_eval l) in *.
    change (xs l2) with (xs l) in *.
    rewrite Hev in Hy1. subst by1.
    exists l2, bx1.
    split_and!; try done; try (cbn; lia).
    by rewrite ?app_nil_r.
Qed.

Lemma batch_positions_length (p1 p2 : list nat) (n start batch_size : Z) :
  Z.of_nat (length p1) = n -> Z.of_nat (length p2) = n ->
  0 <= start < n -> 1 <= batch_size <= n ->
  Z.of_nat (length (batch_positions p1 p2 n start batch_size)) = batch_size.
Proof.
  intros H1 H2 Hs Hb. unfold batch_positions.
  destruct (Z.leb_spec n (start + batch_size)).
  - rewrite length_app, Nat2Z.inj_add.
    destruct (py_slice_range p1 start n) as [_ ->]; [lia..|].
    destruct (py_slice_range p2 0 (start + batch_size - n)) as [_ ->]; lia.
  - destruct (py_slice_range p1 start (start + batch_size)) as [_ ->]; lia.
Qed.

Lemma batch_at_length l (positions : list nat) (b : batch) :
  batch_at l positions b ->
  length b.1 = length (xs l) /\
  Forall (fun bx => length bx = length positions) b.1 /\
  exists by_, b.2 = Some by_ /\ length by_ = length positions.
Proof.
  intros [Hx (yv & by_ & _ & Hb & Hy)]. split_and!.
  - symmetry. by eapply Forall2_length.
  - clear -Hx. induction Hx; constructor; [by eapply take_rows_length|done].
  - exists by_. split; [done|]. by eapply take_rows_length.
Qed.

Lemma batch_at_len l (positions : list nat) (b : batch) :
  xs l <> [] -> batch_at l positions b ->
  batch_len (Some b) = Z.of_nat (length positions).
Proof.
  intros Hne Hb. destruct (batch_at_length _ _ _ Hb) as (Hl & Hall & _).
  destruct b as [[|x0 bx] by_]; simpl in *.
  - destruct (xs l); [done|discriminate].
  - apply Forall_cons in Hall as [-> _]. done.
Qed.

Lemma init_ok (xs0 : list (list A)) (y0 : option (list B)) (ev : bool) l :
  __init__ xs0 y0 ev = Some l ->
  (ev = false ->
   exists yv, y0 = Some yv /\ Z.of_nat (length yv) = sample_n l) ->
  loader_ok l /\ xs l = xs0 /\ y l = y0 /\ for_eval l = ev /\
  epochs_completed l = 0 /\ _index_in_epoch l = 0 /\
  _perm l = seq 0 (Z.to_nat (sample_n l)).
Proof.
  unfold __init__. destruct xs0 as [|x0 xs0]; [done|].
  destruct (forallb _ _) eqn:Hall; [|done].
  assert (Hrows : Forall (fun x => length x = length x0) (x0 :: xs0)).
  { apply Forall_forall. intros x Hx. apply list_elem_of_In in Hx.
    rewrite forallb_forall in Hall. apply Nat.eqb_eq. by apply Hall. }
  clear Hall. intros [= <-] Hy. cbn [xs y for_eval epochs_completed
    _index_in_epoch _perm sample_n] in *.
  split_and!; try done; [|by rewrite Nat2Z.id].
  split; cbn [xs y for_eval epochs_completed _index_in_epoch _perm sample_n];
    try done.
  - eapply Forall_impl; [exact Hrows|]. intros x Hx. cbn in Hx. lia.
  - by rewrite Nat2Z.id.
Qed.

Lemma same_data_trans l1 l2 l3 :
  same_data l1 l2 -> same_data l2 l3 -> same_data l1 l3.
Proof. unfold same_data. intros (?&?&?&?) (?&?&?&?). split_and!; congruence. Qed.

Lemma run_train l g (calls : list (Z * bool)) :
  loader_ok l -> index_ok l -> for_eval l = false ->
  Forall (fun c => 1 <= c.1 <= sample_n l) calls ->
  exists l' g' outs,
    run shuffle calls (l, g) = ((l', g'), outs) /\
    loader_ok l' /\ index_ok l' /\ same_data l l' /\
    epochs_completed l' * sample_n l + _index_in_epoch l' =
      epochs_completed l * sample_n l + _index_in_epoch l + total_size calls /\
    served outs = total_size calls /\
    (Forall (fun c => c.2 = false) calls -> _perm l' = _perm l).
Proof.
  intros Hok Hidx Hev Hcalls. revert l g Hok Hidx Hev Hcalls.
  induction calls as [|[bs sh] calls IH]; intros l g Hok Hidx Hev Hcalls.
  - exists l, g, []. cbn. split_and!; try done. lia.
  - apply Forall_cons in Hcalls as [Hbs Hcalls]. cbn [fst] in Hbs.
    destruct (next_batch_train l g bs sh Hok Hidx Hev Hbs)
      as (l1 & b & Hstep & Hsame & Hperm & Hep & Hix & Hb & Hok1 & Hidx1).
    destruct Hsame as (Hxs & Hy & Hn & Hfe).
    destruct (IH l1 (if (sample_n l <=? _index_in_epoch l + bs) && sh
                     then shuffle (if (epochs_completed l =? 0) && (_index_in_epoch l =? 0) && sh
                                   then shuffle g (_perm l) else (_perm l, g)).2
                                  (if (epochs_completed l =? 0) && (_index_in_epoch l =? 0) && sh
                                   then shuffle g (_perm l) else (_perm l, g)).1
                     else (if (epochs_completed l =? 0) && (_index_in_epoch l =? 0) && sh
                           then shuffle g (_perm l) else (_perm l, g))).2)
      as (l' & g' & outs & Hrun & Hok' & Hidx' & Hsame' & Hacc & Hserved & Hnosh);
      [done|done|congruence|by rewrite Hn|].
    cbn [run]. rewrite Hstep, Hrun.
    do 3 eexists. split; [reflexivity|].
    split_and!; try done.
    + eapply same_data_trans; [|exact Hsame']. done.
    + rewrite Hn in Hacc. rewrite Hacc, Hep, Hix.
      unfold total_size. cbn [foldr fst].
      destruct (Z.leb_spec (sample_n l) (_index_in_epoch l + bs));
        cbv beta iota; lia.
    + unfold served, total_size in *. cbn [foldr fst snd]. rewrite Hserved.
      f_equal. rewrite (batch_at_len l _ b (ok_xs _ Hok) Hb).
      pose proof (loader_ok_perm_length _ Hok).
      apply batch_positions_length; try done.
      * destruct ((epochs_completed l =? 0) && (_index_in_epoch l =? 0) && sh);
          [rewrite shuffle_perm|]; cbn [fst]; lia.
      * rewrite <- Hperm, (ok_perm _ Hok1), length_seq. lia.
    + intros Hall. apply Forall_cons in Hall as [Hsh Hall]. cbn in Hsh. subst sh.
      rewrite (Hnosh Hall), Hperm. by rewrite !andb_false_r.
Qed.

Lemma run_eval l g (calls : list (Z * bool)) :
  loader_ok l -> for_eval l = true -> _index_in_epoch l <= sample_n l ->
  exists l' g' outs,
    run shuffle calls (l, g) = ((l', g'), outs) /\
    loader_ok l' /\ same_data l l' /\ _index_in_epoch l' <= sample_n l'.
Proof.
  revert l g. induction calls as [|[bs sh] calls IH]; intros l g Hok Hev Hidx.
  - by exists l, g, [].
  - destruct (next_batch_eval l g bs sh Hok Hev Hidx)
      as (l1 & bx & Hstep & Hsame & _ & _ & _ & _ & _ & Hok1 & Hidx1).
    destruct (IH l1 (if (epochs_completed l =? 0) && (_index_in_epoch l =? 0) && sh
                     then shuffle g (_perm l) else (_perm l, g)).2 Hok1)
      as (l' & g' & outs & Hrun & Hok' & Hsame' & Hidx'); [|done|].
    { destruct Hsame as (_ & _ & _ & ->). done. }
    cbn [run]. rewrite Hstep, Hrun.
    do 3 eexists. split; [reflexivity|].
    split_and!; try done. by eapply same_data_trans.
Qed.





(** C1: a training loader over arrays of [sample_n] rows returns, at every
    call with [1 <= batch_size <= sample_n], arrays of exactly [batch_size]
    rows; a batch that reaches the end of the epoch is the rest of the
    current permutation followed by the first positions of the next one,
    and it is the rest alone when nothing is left to take. *)
Theorem next_batch_size (xs0 : list (list A)) (yv : list B) l0 g
    (calls : list (Z * bool)) (batch_size : Z) (sh : bool) :
  __init__ xs0 (Some yv) false = Some l0 ->
  Z.of_nat (length yv) = sample_n l0 ->
  Forall (fun c => 1 <= c.1 <= sample_n l0) calls ->
  1 <= batch_size <= sample_n l0 ->
  let w := (run shuffle calls (l0, g)).1 in
  let start := _index_in_epoch w.1 in
  let first := (epochs_completed w.1 =? 0) && (start =? 0) && sh in
  let p1 := (if first then shuffle w.2 (_perm w.1) else (_perm w.1, w.2)).1 in
  exists w' ev bx by_,
    next_batch shuffle batch_size sh w = (w', ev, Some (bx, Some by_)) /\
    length bx = length xs0 /\
    Forall (fun b => Z.of_nat (length b) = batch_size) bx /\
    Z.of_nat (length by_) = batch_size /\
    0 <= start < sample_n l0 /\
    batch_at l0
      (batch_positions p1 (_perm w'.1) (sample_n l0) start batch_size)
      (bx, Some by_) /\
    (start + batch_size = sample_n l0 ->
     batch_at l0 (py_slice p1 start (sample_n l0)) (bx, Some by_)).
Proof.
  intros Hinit Hylen Hcalls Hbs w start first p1.
  destruct (init_ok _ _ _ _ Hinit) as (Hok0 & Hxs & Hy & Hev & Hep0 & Hix0 & Hp0).
  { intros _. by exists yv. }
  assert (Hidx0 : index_ok l0) by (unfold index_ok; lia).
  destruct (run_train l0 g calls Hok0 Hidx0 Hev Hcalls)
    as (l & g1 & outs & Hrun & Hok & Hidx & (Hxs' & Hy' & Hn & Hev') & _).
  subst p1 first start w. rewrite Hrun. cbn [fst snd].
  set (start := _index_in_epoch l).
  set (first := (epochs_completed l =? 0) && (start =? 0) && sh).
  set (p1 := (if first then shuffle g1 (_perm l) else (_perm l, g1)).1).
  destruct (next_batch_train l g1 batch_size sh Hok Hidx)
    as (l' & b & Hstep & (_ & _ & Hn' & _) & Hperm & _ & _ & Hb & Hok' & _);
    [congruence|lia|].
  rewrite <- Hperm, Hn in Hb.
  fold start first in Hstep, Hb. fold p1 in Hb.
  assert (Hb0 : batch_at l0
            (batch_positions p1 (_perm l') (sample_n l0) start batch_size) b).
  { destruct Hb as [Hbx Hby]. split; [by rewrite <- Hxs'|by rewrite <- Hy']. }
  destruct (batch_at_length _ _ _ Hb0) as (Hl & Hall & by_ & Hby & Hbylen).
  assert (Hplen : Z.of_nat (length
            (batch_positions p1 (_perm l') (sample_n l0) start batch_size))
          = batch_size).
  { pose proof (loader_ok_perm_length _ Hok).
    pose proof (loader_ok_perm_length _ Hok').
    destruct Hidx. apply batch_positions_length; try lia.
    subst p1. destruct first; [rewrite shuffle_perm|]; cbn [fst]; lia. }
  destruct b as [bx by0]. cbn [fst snd] in *. subst by0.
  eexists (l', _), _, bx, by_. split; [exact Hstep|].
  destruct Hidx. split_and!; try lia; try done.
  - by rewrite Hl, Hxs.
  - eapply Forall_impl; [exact Hall|]. intros x Hx. cbn in Hx. lia.
  - intros Hend. unfold batch_positions in Hb0.
    destruct (Z.leb_spec (sample_n l0) (start + batch_size)); [|lia].
    replace (start + batch_size - sample_n l0) with 0 in Hb0 by lia.
    assert (Hnil : py_slice (_perm l') 0 0 = []).
    { apply length_zero_iff_nil. unfold py_slice.
      rewrite length_take. unfold slice_bound. cbn. lia. }
    by rewrite Hnil, app_nil_r in Hb0.
Qed.

(** C5: for a training loader and batch sizes between 1 and [sample_n],
    [0 <= _index_in_epoch < sample_n] holds after [__init__], every call
    preserves it, and along every sequence of calls [_index_in_epoch] is the
    number of samples served so far less [sample_n] for each epoch
    completed. *)
Theorem index_in_epoch_invariant (xs0 : list (list A)) (yv : list B) l0
    (batch_size : Z) :
  __init__ xs0 (Some yv) false = Some l0 ->
  Z.of_nat (length yv) = sample_n l0 ->
  1 <= batch_size <= sample_n l0 ->
  index_ok l0 /\
  (forall l g sh,
     loader_ok l -> for_eval l = false -> sample_n l = sample_n l0 ->
     index_ok l ->
     index_ok (next_batch shuffle batch_size sh (l, g)).1.1.1) /\
  (forall g calls,
     Forall (fun c => 1 <= c.1 <= sample_n l0) calls ->
     let r := run shuffle calls (l0, g) in
     index_ok r.1.1 /\
     _index_in_epoch r.1.1 =
       served r.2 - epochs_completed r.1.1 * sample_n l0).
Proof.
  intros Hinit Hylen Hbs.
  destruct (init_ok _ _ _ _ Hinit) as (Hok0 & Hxs & Hy & Hev & Hep0 & Hix0 & Hp0).
  { intros _. by exists yv. }
  assert (Hidx0 : index_ok l0) by (unfold index_ok; lia).
  split_and!; [done| |].
  - intros l g sh Hok Hevl Hn Hidx.
    destruct (next_batch_train l g batch_size sh Hok Hidx Hevl)
      as (l' & b & -> & _ & _ & _ & _ & _ & _ & Hidx'); [lia|done].
  - intros g calls Hcalls r.
    destruct (run_train l0 g calls Hok0 Hidx0 Hev Hcalls)
      as (l & g1 & outs & Hrun & Hok & Hidx & _ & Hacc & Hserved & _).
    subst r. rewrite Hrun. cbn [fst snd]. split; [done|]. lia.
Qed.




(** C7: an evaluation loader returns [None] for the labels at every call;
    the call that reaches the end of the data returns the rows at the
    remaining positions of the permutation only, at most [batch_size] of
    them, and puts [_index_in_epoch] back to 0; the warning is printed by
    exactly the calls made once [epochs_completed >= 1]. *)
Theorem next_batch_for_eval (xs0 : list (list A)) (y0 : option (list B)) l0 g
    (calls : list (Z * bool)) (batch_size : Z) (sh : bool) :
  __init__ xs0 y0 true = Some l0 ->
  let w := (run shuffle calls (l0, g)).1 in
  let first :=
    (epochs_completed w.1 =? 0) && (_index_in_epoch w.1 =? 0) && sh in
  exists w' bx,
    next_batch shuffle batch_size sh w =
      (w',
       (if 1 <=? epochs_completed w.1 then [Warning] else []) ++
       (if first then [Shuffled] else []), Some (bx, None)) /\
    (sample_n l0 <= _index_in_epoch w.1 + batch_size ->
     Forall2 (fun x b =>
       take_rows x
         (py_slice (_perm w'.1) (_index_in_epoch w.1) (sample_n l0)) = Some b)
       xs0 bx /\
     Forall (fun b => Z.of_nat (length b) <= batch_size) bx /\
     _index_in_epoch w'.1 = 0 /\
     epochs_completed w'.1 = epochs_completed w.1 + 1).
Proof.
  intros Hinit w first.
  destruct (init_ok _ _ _ _ Hinit) as (Hok0 & Hxs & Hy & Hev & Hep0 & Hix0 & Hp0);
    [done|].
  assert (Hn0 : 0 <= sample_n l0).
  { destruct Hok0 as [Hne Hrows _ _ _]. destruct (xs l0); [done|].
    apply Forall_cons in Hrows as [? _]. lia. }
  destruct (run_eval l0 g calls Hok0 Hev) as
    (l & g1 & outs & Hrun & Hok & (Hxs' & Hy' & Hn & Hev') & Hidx); [lia|].
  subst first w. rewrite Hrun. cbn [fst snd].
  destruct (next_batch_eval l g1 batch_size sh Hok)
    as (l' & bx & Hstep & _ & Hperm & Hep & Hix & Hbx & Hlen & _ & _);
    [congruence|done|].
  eexists (l', _), bx. split; [exact Hstep|]. cbn [fst snd].
  intros Hend. rewrite <- Hn in Hend. apply Z.leb_le in Hend.
  rewrite Hend in *. rewrite Hperm, <- Hn, <- Hxs, <- Hxs'.
  split_and!; try done. by apply Hlen.
Qed.
End DataLoader_facts.

(** ** Distances *)

Section distance_facts.
Local Open Scope R_scope.

(** [root_ltb] decides the comparison of the real numbers. *)
Lemma root_ltb_spec (r : root) (t : Z) :
  root_ltb r t = true <-> root_val r < IZR t.
Proof.
  unfold root_ltb, root_val. destruct r as [s]. cbn [radicand].
  rewrite andb_true_iff, Z.ltb_lt, Z.ltb_lt. split.
  - intros [Ht Hs]. apply IZR_lt in Ht.
    rewrite <- (sqrt_square (IZR t)) by lra.
    destruct (Z.le_gt_cases 0 s) as [H0|H0].
    + apply sqrt_lt_1_alt. split; [by apply IZR_le|].
      rewrite <- mult_IZR. by apply IZR_lt.
    + rewrite (sqrt_neg_0 (IZR s)).
      * rewrite sqrt_square by lra. done.
      * apply IZR_le. lia.
  - intros Hlt. pose proof (sqrt_pos (IZR s)) as Hpos.
    assert (Ht : (0 < t)%Z) by (apply lt_IZR; lra).
    split; [done|].
    destruct (Z.lt_ge_cases s (t * t)) as [|Hge]; [done|]. exfalso.
    apply IZR_le in Hge. rewrite mult_IZR in Hge.
    assert (0 <= IZR t) by (apply IZR_le; lia).
    apply sqrt_le_1_alt in Hge. rewrite sqrt_square in Hge by done. lra.
Qed.

Lemma root_leb_spec (a b : root) :
  (0 <= radicand a)%Z -> (0 <= radicand b)%Z ->
  root_leb a b = true <-> root_val a <= root_val b.
Proof.
  intros Ha Hb. unfold root_leb, root_val. rewrite Z.leb_le. split.
  - intros Hle. apply sqrt_le_1_alt. by apply IZR_le.
  - intros Hle. apply le_IZR. apply sqrt_le_0; [by apply IZR_le..|done].
Qed.
End distance_facts.

(** ** get_adjacency *)

Lemma dok_get_set (m : dok_matrix) (i j i' j' : nat) (v : bool) :
  dok_get (dok_set i j v m) i' j' =
  if decide ((i, j) = (i', j')) then v else dok_get m i' j'.
Proof.
  unfold dok_get, dok_set. cbn [keys]. destruct v.
  - rewrite lookup_insert. by case_decide.
  - rewrite lookup_delete. by case_decide.
Qed.

Lemma shape_fill_row (i : nat) (cols : list nat) (m : dok_matrix) :
  shape (foldl (fun adj col => dok_set i col true adj) m cols) = shape m.
Proof. revert m. induction cols as [|c cols IH]; intros m; [done|]. cbn. by rewrite IH. Qed.

Lemma dok_get_fill_row (i : nat) (cols : list nat) (m : dok_matrix) (i' j' : nat) :
  dok_get (foldl (fun adj col => dok_set i col true adj) m cols) i' j' = true <->
  dok_get m i' j' = true \/ (i' = i /\ j' ∈ cols).
Proof.
  revert m. induction cols as [|c cols IH]; intros m; cbn [foldl].
  - rewrite elem_of_nil. tauto.
  - rewrite IH, dok_get_set, elem_of_cons. case_decide as Heq.
    + inversion Heq; subst. tauto.
    + split; [tauto|]. intros [?|[-> [->|?]]]; tauto.
Qed.

Lemma dok_get_fill_rows (cols : nat -> list nat) (rows : list nat)
    (m : dok_matrix) (i j : nat) :
  dok_get
    (foldl (fun a r => foldl (fun adj col => dok_set r col true adj) a (cols r))
       m rows) i j = true <->
  dok_get m i j = true \/ (i ∈ rows /\ j ∈ cols i).
Proof.
  revert m. induction rows as [|r rows IH]; intros m; cbn [foldl].
  - rewrite elem_of_nil. tauto.
  - rewrite IH, dok_get_fill_row, elem_of_cons.
    split; [intros [[?|[-> ?]]|[? ?]]; tauto|].
    intros [?|[[->|?] ?]]; tauto.
Qed.


Lemma elem_of_np_where (a : list bool) (j : nat) :
  j ∈ np_where a <-> a !! j = Some true.
Proof.
  unfold np_where. rewrite list_elem_of_filter, elem_of_seq. split; [tauto|].
  intros Hj. split; [done|]. apply lookup_lt_Some in Hj. lia.
Qed.

Lemma root_val_sum_squares (p q : list Z) :
  root_val (Sqrt (foldr Z.add 0 (map (fun d => d * d) (zip_with Z.sub q p)))) =
  euclidean p q.
Proof.
  unfold root_val, euclidean. cbn [radicand]. f_equal.
  revert p. induction q as [|b q IH]; intros [|a p]; cbn; try done.
  rewrite plus_IZR, mult_IZR, minus_IZR, IH. done.
Qed.


(** ** get_neighbourhood_count *)

Lemma zip_with_seq {A B C} (g : A -> B -> C) (r : list A) (b : list B)
    (da : A) (db : B) :
  length r = length b ->
  zip_with g r b =
  map (fun j => g (default da (r !! j)) (default db (b !! j)))
    (seq 0 (length r)).
Proof.
  intros Hlen. apply list_eq. intros j.
  rewrite lookup_zip_with. change (map ?f ?l) with (f <$> l).
  rewrite list_lookup_fmap.
  destruct (decide (j < length r)%nat) as [Hj|Hj].
  - rewrite lookup_seq_lt by done.
    destruct (lookup_lt_is_Some_2 r j Hj) as [x Hx].
    destruct (lookup_lt_is_Some_2 b j) as [z Hz]; [lia|].
    cbn. by rewrite Hx, Hz.
  - rewrite lookup_seq_ge by lia. rewrite (lookup_ge_None_2 r) by lia. done.
Qed.

Lemma sum_count (h : nat -> Z) (P : nat -> bool) (l : list nat) :
  (forall j, j ∈ l -> h j = if P j then 1 else 0) ->
  foldr Z.add 0 (map h l) =
  Z.of_nat (length (filter (fun j => P j = true) l)).
Proof.
  induction l as [|a l IH]; intros Hh; [done|].
  cbn [map foldr]. rewrite filter_cons, IH, (Hh a).
  - destruct (P a); case_decide; try done; cbn [length]; lia.
  - apply elem_of_cons. by left.
  - intros j Hj. apply Hh, elem_of_cons. by right.
Qed.

Lemma row_sum_lookup (r : list Z) (b : list (list Z)) (k m : nat) :
  Forall (fun br => length br = k) b -> (m < k)%nat ->
  foldr (zip_with Z.add) (replicate k 0)
    (zip_with (fun c brow => map (Z.mul c) brow) r b) !! m =
  Some (foldr Z.add 0 (zip_with (fun c brow => c * default 0 (brow !! m)) r b)).
Proof.
  intros Hb Hm. revert r. induction Hb as [|br b Hbr Hb IH]; intros r.
  - destruct r; cbn; by rewrite lookup_replicate_2.
  - destruct r as [|c r]; cbn [zip_with foldr]; [by rewrite lookup_replicate_2|].
    rewrite lookup_zip_with, IH. change (map ?f ?l) with (f <$> l).
    rewrite list_lookup_fmap.
    destruct (lookup_lt_is_Some_2 br m) as [x ->]; [lia|]. done.
Qed.

Lemma dot_matrix_count (a b : list (list Z)) (n k : nat) :
  is_01 n n a -> is_01 n k b ->
  exists nb, dot_matrix a b = Some nb /\ length nb = n /\
    forall i m, (i < n)%nat -> (m < k)%nat ->
      entry nb i m =
      Some (Z.of_nat (length (filter
        (fun j => bool_decide (entry a i j = Some 1) &&
                  bool_decide (entry b j m = Some 1) = true) (seq 0 n)))).
Proof.
  intros [Han Ha] [Hbn Hb]. unfold dot_matrix.
  assert (Hall : forallb (fun r => Nat.eqb (length r) (length b)) a = true).
  { apply forallb_forall. intros r Hr. apply list_elem_of_In in Hr.
    apply Nat.eqb_eq. rewrite Forall_forall in Ha. destruct (Ha r Hr). lia. }
  rewrite Hall. eexists. split; [done|]. split; [by rewrite length_map|].
  intros i m Hi Hm. unfold entry at 1. change (map ?f ?l) with (f <$> l).
  rewrite list_lookup_fmap.
  destruct (lookup_lt_is_Some_2 a i) as [r Hr]; [lia|]. rewrite Hr. cbn.
  assert (Hrow : length r = n /\ Forall (fun e => e = 0 \/ e = 1) r).
  { rewrite Forall_forall in Ha. apply Ha. by eapply list_elem_of_lookup_2. }
  destruct Hrow as [Hrn Hr01].
  assert (Hk : length (default [] (head b)) = k).
  { destruct b as [|b0 b]; [cbn in *; lia|]. cbn.
    apply Forall_cons in Hb as [[? _] _]. done. }
  rewrite Hk. rewrite row_sum_lookup.
  2:{ eapply Forall_impl; [exact Hb|]. by intros ? [? _]. }
  2:{ done. }
  f_equal. rewrite (zip_with_seq _ r b 0 []) by lia. rewrite Hrn.
  apply sum_count. intros j Hj. apply elem_of_seq in Hj.
  unfold entry. rewrite Hr. cbn.
  destruct (lookup_lt_is_Some_2 r j) as [c Hc]; [lia|].
  destruct (lookup_lt_is_Some_2 b j) as [br Hbr]; [lia|].
  rewrite Hc, Hbr. cbn.
  assert (Hbr' : length br = k /\ Forall (fun e => e = 0 \/ e = 1) br).
  { rewrite Forall_forall in Hb. apply Hb. by eapply list_elem_of_lookup_2. }
  destruct Hbr' as [Hbrk Hbr01].
  destruct (lookup_lt_is_Some_2 br m) as [e He]; [lia|]. rewrite He. cbn.
  assert (c = 0 \/ c = 1) as [->| ->].
  { rewrite Forall_forall in Hr01. apply Hr01. by eapply list_elem_of_lookup_2. }
  all: assert (e = 0 \/ e = 1) as [->| ->]
    by (rewrite Forall_forall in Hbr01; apply Hbr01;
        by eapply list_elem_of_lookup_2).
  all: done.
Qed.

Lemma entry_zero_diagonal (m : list (list Z)) (i j : nat) :
  entry (zero_diagonal m) i j =
  (fun e => if decide (i = j) then 0 else e) <$> entry m i j.
Proof.
  unfold entry, zero_diagonal. rewrite list_lookup_imap.
  destruct (m !! i) as [r|]; [|done]. cbn. rewrite list_lookup_insert.
  case_decide as Hd.
  - destruct Hd as [<- Hlt].
    destruct (lookup_lt_is_Some_2 r i Hlt) as [e ->]. cbn.
    by rewrite decide_True.
  - destruct (decide (i = j)) as [<-|Hne].
    + rewrite lookup_ge_None_2 by lia. done.
    + by destruct (r !! j).
Qed.

Lemma is_01_zero_diagonal (n k : nat) (m : list (list Z)) :
  is_01 n k m -> is_01 n k (zero_diagonal m).
Proof.
  intros [Hn Hm]. unfold zero_diagonal. split; [by rewrite length_imap|].
  apply Forall_lookup. intros i r. rewrite list_lookup_imap.
  destruct (m !! i) as [r0|] eqn:Hr0; [|done]. intros [= <-].
  rewrite Forall_lookup in Hm. destruct (Hm i r0 Hr0) as [Hlen H01].
  split; [by rewrite length_insert|]. apply Forall_insert; [done|by left].
Qed.

Lemma is_01_is_square (n : nat) (m : list (list Z)) :
  is_01 n n m -> is_square m = true.
Proof.
  intros [Hn Hm]. unfold is_square. apply forallb_forall. intros r Hr.
  apply list_elem_of_In in Hr. rewrite Forall_forall in Hm.
  destruct (Hm r Hr). apply Nat.eqb_eq. lia.
Qed.

Lemma one_hot_rows_spec (label_n : nat) (label : list Z) :
  Forall (fun t => 0 <= t < Z.of_nat label_n) label ->
  exists b, one_hot_rows label_n label = Some b /\
    is_01 (length label) label_n b /\
    forall j m, (m < label_n)%nat ->
      (entry b j m = Some 1 <-> label !! j = Some (Z.of_nat m)).
Proof.
  intros Hall.
  set (row := fun t : Z => <[Z.to_nat t := 1]> (replicate label_n 0)).
  exists (map row label). split_and!.
  - unfold one_hot_rows. apply mapM_Some. apply Forall2_fmap_r, Forall_Forall2_diag.
    eapply Forall_impl; [exact Hall|]. intros t Ht. cbn beta in Ht |- *.
    destruct (Z.leb_spec 0 t); [|lia]. destruct (Z.ltb_spec t (Z.of_nat label_n)); [|lia].
    done.
  - split; [by rewrite length_map|]. apply Forall_forall. intros r Hr.
    apply list_elem_of_fmap in Hr as (t & -> & _). unfold row.
    split; [by rewrite length_insert, length_replicate|].
    apply Forall_insert; [apply Forall_replicate; by left|by right].
  - intros j m Hm. unfold entry. change (map ?f ?l) with (f <$> l).
    rewrite list_lookup_fmap.
    destruct (label !! j) as [t|] eqn:Ht; cbn; [|done].
    rewrite Forall_lookup in Hall. specialize (Hall j t Ht).
    unfold row. rewrite list_lookup_insert, length_replicate.
    case_decide as Hd.
    + destruct Hd as [<- _]. split; [intros _; f_equal; lia|done].
    + split.
      * intros Hl. apply lookup_replicate in Hl as [? _]. done.
      * intros [= ->]. destruct Hd. split; lia.
Qed.

Lemma filter_ext_bool (P Q : nat -> bool) (l : list nat) :
  (forall j, j ∈ l -> P j = Q j) ->
  filter (fun j => P j = true) l = filter (fun j => Q j = true) l.
Proof.
  induction l as [|a l IH]; intros HPQ; [done|].
  rewrite !filter_cons, IH, (HPQ a).
  - done.
  - apply elem_of_cons. by left.
  - intros j Hj. apply HPQ, elem_of_cons. by right.
Qed.

(** C6: for a zero-one [n]-by-[n] adjacency matrix and a label that fits
    [one_hot_label], held in two different arrays, [get_neighbourhood_count]
    returns the [n]-row matrix whose entry [(i, t)], for a label [t < m], is
    the number of samples adjacent to [i] with label [t], [i] itself left
    out when [exclude_self] is set. *)
Theorem neighbourhood_count_spec (σ : gmap positive ndarray)
    (adjacency label : positive) (adj : list (list Z)) (lab : ndarray)
    (n m : nat) (exclude_self one_hot_label : bool) :
  σ !! adjacency = Some (Matrix adj) -> σ !! label = Some lab ->
  adjacency <> label ->
  is_01 n n adj -> label_ok one_hot_label n m lab ->
  exists nb_count,
    (get_neighbourhood_count adjacency label exclude_self one_hot_label σ).2 =
      Some (Matrix nb_count) /\
    length nb_count = n /\
    forall i t, (i < n)%nat -> (t < m)%nat ->
      entry nb_count i t = Some (neighbour_count adj lab exclude_self i t).
Proof.
  intros Ha Hl Hne Hadj Hlab.
  pose proof (is_01_is_square _ _ Hadj) as Hsq.
  assert (Hn : length adj = n) by apply Hadj.
  (* the matrix the product is taken with, and what it says about labels *)
  assert (Hb : exists b,
    is_01 n m b /\
    (if one_hot_label then lab = Matrix b
     else exists v, lab = Vector v /\ one_hot_rows (unique_n v) v = Some b) /\
    shape0 lab = n /\
    forall j t, (t < m)%nat ->
      has_label lab j t = bool_decide (entry b j t = Some 1)).
  { destruct one_hot_label, lab as [oh|v]; cbn in Hlab; try done.
    - exists oh. split_and!; try done. apply Hlab.
    - destruct Hlab as (Hvn & -> & Hv).
      destruct (one_hot_rows_spec _ _ Hv) as (b & Hb & Hb01 & Hbe).
      exists b. rewrite Hvn in Hb01. split_and!; try done; [by exists v|].
      intros j t Ht. cbn. apply bool_decide_ext. by rewrite Hbe. }
  destruct Hb as (b & Hb01 & Hone & Hshape & Hhas).
  set (a' := if exclude_self then zero_diagonal adj else adj).
  assert (Ha' : is_01 n n a').
  { subst a'. destruct exclude_self; [by apply is_01_zero_diagonal|done]. }
  destruct (dot_matrix_count a' b n m Ha' Hb01) as (nb & Hdot & Hnb & Hcount).
  exists nb. split_and!; [|done|].
  - unfold get_neighbourhood_count. rewrite Ha, Hl, Hshape, Hn, Nat.eqb_refl.
    cbn [negb]. destruct one_hot_label.
    + subst lab. destruct exclude_self; cbn [snd]; subst a'.
      * rewrite Hsq. cbn [snd]. rewrite lookup_insert_eq.
        rewrite lookup_insert_ne, Hl by done. cbn. by rewrite Hdot.
      * rewrite Ha, Hl. cbn. by rewrite Hdot.
    + destruct Hone as (v & -> & Hrows). rewrite Hrows. cbn [fmap option_fmap option_map].
      destruct exclude_self; cbn [snd]; subst a'.
      * rewrite Hsq. cbn [snd]. rewrite lookup_insert_eq. cbn. by rewrite Hdot.
      * rewrite Ha. cbn. by rewrite Hdot.
  - intros i t Hi Ht. rewrite (Hcount i t Hi Ht). unfold neighbour_count.
    rewrite Hn. do 3 f_equal. apply filter_ext_bool. intros j Hj.
    rewrite (Hhas j t Ht). subst a'. destruct exclude_self; cbn [negb orb].
    + rewrite entry_zero_diagonal. destruct (Nat.eqb_spec j i) as [->|Hji].
      * destruct (entry adj i i); cbn; rewrite ?decide_True by done;
          rewrite ?bool_decide_eq_false_2 by done; by rewrite ?andb_false_r.
      * destruct (entry adj i j); cbn; rewrite ?decide_False by done;
          by rewrite ?andb_true_r.
    + by rewrite andb_true_r.
Qed.


(** ** pca_reduce *)

Section pca_reduce_facts.
Local Open Scope R_scope.













End pca_reduce_facts.

(** ** get_adjacency_knearest *)

Section knearest_facts.
Variable argsort : list root -> list nat.
Variables (coordinate : list (list Z)) (k : Z) (exclude_self : bool).

Lemma knearest_step_None (rows : list nat) : foldl (knearest_step argsort coordinate k exclude_self) None rows = None.
Proof. induction rows as [|r rows IH]; [done|]. exact IH. Qed.

Lemma knearest_rows_spec (rows : list nat) (m m' : dok_matrix) :
foldl (knearest_step argsort coordinate k exclude_self) (Some m) rows = Some m' ->
shape m' = shape m /\
forall i j,
  dok_get m' i j = true <->
  (dok_get m i j = true \/ (i ∈ rows /\ j ∈ knearest_cols argsort coordinate k i)) /\
  (i ∈ rows -> exclude_self = true -> j <> i).
Proof.
revert m. induction rows as [|r rows IH]; intros m Hfold.
- injection Hfold as <-. split; [done|]. intros i j.
  rewrite elem_of_nil. split; [tauto|]. intros [[?|[[] _]] _]. done.
- cbn [foldl] in Hfold. unfold knearest_step at 2 in Hfold. cbn [mbind option_bind] in Hfold.
  destruct (planar_distance (difference_from coordinate r)) as [d|] eqn:Hd;
    cbn [mbind option_bind] in Hfold;
    [|by rewrite knearest_step_None in Hfold].
  apply IH in Hfold as [Hshape Hget]. split.
  { rewrite Hshape. destruct exclude_self; cbn; by rewrite shape_fill_row. }
  intros i j. rewrite Hget. clear Hget Hshape.
  assert (Hm1 : forall m1, m1 = (if exclude_self
      then dok_set r r false
             (foldl (fun adj col => dok_set r col true adj) m
                (py_slice (argsort d) 0 k))
      else foldl (fun adj col => dok_set r col true adj) m
             (py_slice (argsort d) 0 k)) ->
    (dok_get m1 i j = true <->
     (dok_get m i j = true \/ (i = r /\ j ∈ knearest_cols argsort coordinate k i)) /\
     (i = r -> exclude_self = true -> j <> i))).
  { intros m1 ->. destruct exclude_self.
    - rewrite dok_get_set. case_decide as Heq.
      + inversion Heq; subst. split; [done|]. intros [_ Hne]. by destruct Hne.
      + rewrite dok_get_fill_row. split.
        * intros [?|[-> Hj]].
          -- split; [tauto|]. intros -> _ ->. done.
          -- split; [|intros _ _ ->; done].
             right. split; [done|]. unfold knearest_cols. by rewrite Hd.
        * intros [[?|[-> Hj]] _]; [tauto|]. right. split; [done|].
          unfold knearest_cols in Hj. by rewrite Hd in Hj.
    - rewrite dok_get_fill_row. split.
      + intros [?|[-> Hj]]; (split; [|done]); [tauto|].
        right. split; [done|]. unfold knearest_cols. by rewrite Hd.
      + intros [[?|[-> Hj]] _]; [tauto|]. right. split; [done|].
        unfold knearest_cols in Hj. by rewrite Hd in Hj. }
  rewrite (Hm1 _ eq_refl), elem_of_cons.
  destruct (decide (i = r)) as [->|Hne]; [tauto|].
  split.
  + intros [[[[?|[? _]] _]|[? ?]] ?]; [|done|]; split; tauto.
  + intros [[?|[[?|?] ?]] ?]; [|done|]; split; tauto.
Qed.

Lemma knearest_fold_total (rows : list nat) (m : dok_matrix) :
Forall (fun c => (2 <= length c)%nat) coordinate ->
Forall (fun i => (i < length coordinate)%nat) rows ->
is_Some (foldl (knearest_step argsort coordinate k exclude_self) (Some m) rows).
Proof.
intros Hcols Hrows. revert m.
induction Hrows as [|r rows Hr _ IH]; intros m; [done|].
cbn [foldl]. unfold knearest_step at 2. cbn [mbind option_bind].
assert (Hd : is_Some (planar_distance (difference_from coordinate r))).
{ unfold planar_distance, difference_from.
  destruct (lookup_lt_is_Some_2 coordinate r Hr) as [ci Hi]. rewrite Hi.
  cbn [default]. apply mapM_is_Some_2, Forall_fmap, Forall_forall.
  intros c Hc. cbn. rewrite Forall_forall in Hcols.
  pose proof (Hcols c Hc).
  pose proof (Hcols ci (list_elem_of_lookup_2 _ _ _ Hi)).
  destruct c as [|? [|? ?]], ci as [|? [|? ?]]; cbn in *; try lia; done. }
destruct Hd as [d ->]. cbn [mbind option_bind]. apply IH.
Qed.
End knearest_facts.

Lemma knearest_entries (argsort : list root -> list nat)
    (coordinate : list (list Z)) (nearest_k : Z) (exclude_self : bool) :
  Forall (fun c => (2 <= length c)%nat) coordinate ->
  exists adjacency,
    get_adjacency_knearest argsort coordinate nearest_k exclude_self =
      Some adjacency /\
    shape adjacency = (length coordinate, length coordinate) /\
    forall i j,
      dok_get adjacency i j = true <->
      (i < length coordinate)%nat /\
      j ∈ knearest_cols argsort coordinate
            (if exclude_self then nearest_k + 1 else nearest_k) i /\
      (exclude_self = true -> j <> i).
Proof.
  intros Hcols.
  set (k := if exclude_self then nearest_k + 1 else nearest_k).
  assert (Hfold :
    get_adjacency_knearest argsort coordinate nearest_k exclude_self =
    foldl (knearest_step argsort coordinate k exclude_self)
      (Some (dok_new (length coordinate) (length coordinate)))
      (seq 0 (length coordinate))) by reflexivity.
  destruct (knearest_fold_total argsort coordinate k exclude_self
              (seq 0 (length coordinate))
              (dok_new (length coordinate) (length coordinate)) Hcols)
    as [adjacency Hadj].
  { apply Forall_forall. intros i Hi. apply elem_of_seq in Hi. lia. }
  exists adjacency. rewrite Hfold. split; [done|].
  apply knearest_rows_spec in Hadj as [Hshape Hget]. split; [done|].
  intros i j. rewrite Hget, elem_of_seq.
  unfold dok_get at 1, dok_new. cbn [keys]. rewrite lookup_empty. cbn [default].
  split.
  - intros [[?|[? ?]] Hne]; [done|]. split_and!; [lia|done|].
    apply Hne. lia.
  - intros (? & ? & ?). split; [right; split; [lia|done]|done].
Qed.

(** *** The insertion sort is an admissible argsort *)

Lemma insert_sorted_perm (k : root) (i : nat) (l : list (root * nat)) :
  insert_sorted k i l ≡ₚ (k, i) :: l.
Proof.
  induction l as [|[k' i'] l IH]; cbn; [done|].
  destruct (root_leb k k'); [done|]. by rewrite IH, Permutation_swap.
Qed.

Lemma insert_sorted_sorted (k : root) (i : nat) (l : list (root * nat)) :
  StronglySorted key_le l -> StronglySorted key_le (insert_sorted k i l).
Proof.
  induction 1 as [|[k' i'] l Hs IH Hall]; cbn.
  - by repeat constructor.
  - unfold root_leb. destruct (Z.leb_spec (radicand k) (radicand k')) as [Hle|Hgt].
    + constructor; [by constructor|]. constructor; [done|].
      eapply Forall_impl; [exact Hall|]. intros y Hy. unfold key_le in *. cbn in *. lia.
    + constructor; [done|]. rewrite insert_sorted_perm.
      constructor; [|done]. unfold key_le. cbn. lia.
Qed.

Lemma sorted_lookup_le (l : list (root * nat)) (a b : nat) (x y : root * nat) :
  StronglySorted key_le l -> (a <= b)%nat ->
  l !! a = Some x -> l !! b = Some y -> key_le x y.
Proof.
  intros Hs. revert a b. induction Hs as [|z l Hs IH Hall]; intros a b Hab Ha Hb.
  - done.
  - destruct a as [|a], b as [|b]; cbn in *; try lia.
    + injection Ha as <-. injection Hb as <-. unfold key_le. lia.
    + injection Ha as <-. rewrite Forall_forall in Hall.
      apply Hall. by eapply list_elem_of_lookup_2.
    + eapply (IH a b); [lia|done..].
Qed.

Lemma elem_of_zip_seq (d : list root) (x : root) (i : nat) :
  (x, i) ∈ zip d (seq 0 (length d)) -> d !! i = Some x.
Proof.
  intros Hin. apply list_elem_of_lookup in Hin as [j Hj].
  apply lookup_zip_Some in Hj as [Hx Hi].
  apply lookup_seq in Hi as [-> _]. done.
Qed.

Lemma insertion_argsort_ok : argsort_ok insertion_argsort.
Proof.
  intros d. unfold insertion_argsort.
  set (pairs := foldr _ _ _).
  assert (Hperm : pairs ≡ₚ zip d (seq 0 (length d))).
  { subst pairs. induction (zip d (seq 0 (length d))) as [|[k i] l IH]; [done|].
    cbn [foldr fst snd]. rewrite insert_sorted_perm. by apply Permutation_skip. }
  assert (Hsorted : StronglySorted key_le pairs).
  { subst pairs. clear Hperm.
    induction (zip d (seq 0 (length d))) as [|[k i] l IH].
    - constructor.
    - cbn [foldr fst snd]. apply insert_sorted_sorted. exact IH. }
  split.
  - rewrite Hperm, snd_zip; [done|]. by rewrite length_seq.
  - intros a b ia ib da db Hab Ha Hb Hda Hdb.
    rewrite list_lookup_fmap in Ha, Hb.
    destruct (pairs !! a) as [[ka ia']|] eqn:Hpa; [|done].
    destruct (pairs !! b) as [[kb ib']|] eqn:Hpb; [|done].
    cbn in Ha, Hb. injection Ha as ->. injection Hb as ->.
    pose proof (sorted_lookup_le _ _ _ _ _ Hsorted Hab Hpa Hpb) as Hle.
    apply list_elem_of_lookup_2 in Hpa, Hpb. rewrite Hperm in Hpa, Hpb.
    apply elem_of_zip_seq in Hpa, Hpb.
    assert (ka = da) as -> by congruence. assert (kb = db) as -> by congruence.
    unfold root_leb. apply Z.leb_le. exact Hle.
Qed.

(** C2, where the code departs from it: three points at the same place,
    [nearest_k = 1] and [exclude_self = True].  Whatever order the sort
    gives to equal distances, two of the three positions come first for
    every row, so the row of the third point keeps two entries instead of
    one. *)
Theorem knearest_coincident_points (argsort : list root -> list nat) :
  argsort_ok argsort ->
  exists adjacency i,
    get_adjacency_knearest argsort [[0; 0]; [0; 0]; [0; 0]] 1 true =
      Some adjacency /\
    (i < 3)%nat /\ row_count adjacency i = 2%nat.
Proof.
  intros Hok.
  destruct (knearest_entries argsort [[0; 0]; [0; 0]; [0; 0]] 1 true)
    as (adjacency & Heq & Hshape & Hget).
  { repeat constructor. }
  set (d := [Sqrt 0; Sqrt 0; Sqrt 0]).
  destruct (Hok d) as [Hperm _].
  assert (Hlen : length (argsort d) = 3%nat) by by rewrite Hperm.
  assert (Hcols : forall i, (i < 3)%nat ->
    knearest_cols argsort [[0; 0]; [0; 0]; [0; 0]] (1 + 1) i =
    take 2 (argsort d)).
  { intros i Hi. unfold knearest_cols.
    assert (planar_distance (difference_from [[0; 0]; [0; 0]; [0; 0]] i)
            = Some d) as ->.
    { destruct i as [|[|[|i]]]; [done..|lia]. }
    unfold py_slice, slice_bound. rewrite Hlen. cbn. by rewrite drop_0. }
  assert (Hnodup : NoDup (argsort d)) by (rewrite Hperm; apply NoDup_seq).
  assert (Hlt : Forall (fun j => (j < 3)%nat) (argsort d)).
  { rewrite Hperm. apply Forall_forall. intros j Hj.
    apply elem_of_seq in Hj. cbn in Hj. lia. }
  destruct (argsort d) as [|a [|b [|c [|? ?]]]]; try discriminate.
  exists adjacency, c. split; [done|].
  apply Forall_cons in Hlt as [Ha Hlt]. apply Forall_cons in Hlt as [Hb Hlt].
  apply Forall_cons in Hlt as [Hc _]. split; [done|].
  apply NoDup_cons in Hnodup as [Hab Hnodup].
  apply NoDup_cons in Hnodup as [Hbc _].
  assert (a <> b /\ a <> c /\ b <> c) as (? & ? & ?).
  { rewrite !elem_of_cons in Hab. rewrite elem_of_cons in Hbc. tauto. }
  assert (Hrow : forall j,
    dok_get adjacency c j = bool_decide (j ∈ [a; b] /\ j <> c)).
  { intros j. apply eq_true_iff_eq. rewrite Hget, bool_decide_eq_true.
    rewrite (Hcols c Hc). cbn. split; [intros (_ & ? & Hne); auto|].
    intros [? ?]. split_and!; [lia|done|done]. }
  unfold row_count. rewrite Hshape. cbn [snd length seq].
  rewrite (filter_ext_bool _ (fun j => bool_decide (j ∈ [a; b] /\ j <> c)))
    by (intros j _; apply Hrow).
  destruct a as [|[|[|a]]], b as [|[|[|b]]], c as [|[|[|c]]]; try lia;
    try done.
Qed.

Lemma knearest_coincident_points_witness :
  exists adjacency i,
    get_adjacency_knearest insertion_argsort [[0; 0]; [0; 0]; [0; 0]] 1 true =
      Some adjacency /\
    (i < 3)%nat /\ row_count adjacency i = 2%nat.
Proof.
  exact (knearest_coincident_points insertion_argsort insertion_argsort_ok).
Defined.

(** With the insertion sort it is the row of the last point. *)
Example knearest_coincident_points_row :
  (a ← get_adjacency_knearest insertion_argsort [[0; 0]; [0; 0]; [0; 0]] 1 true;
   Some (map (row_count a) [0; 1; 2]%nat)) = Some [1; 1; 2]%nat.
Proof. vm_compute. reflexivity. Qed.

(** *** What the rows hold when the points are distinct *)

Lemma count_members (l : list nat) (n : nat) :
  NoDup l -> Forall (fun j => (j < n)%nat) l ->
  length (filter (fun j => bool_decide (j ∈ l) = true) (seq 0 n)) = length l.
Proof.
  intros Hnd Hlt. apply Permutation_length, NoDup_Permutation; [|done|].
  - apply NoDup_filter, NoDup_seq.
  - intros j. rewrite list_elem_of_filter, bool_decide_eq_true, elem_of_seq.
    split; [tauto|]. intros Hj. split; [done|].
    rewrite Forall_forall in Hlt. specialize (Hlt j Hj). lia.
Qed.

Lemma count_members_but (l : list nat) (n i : nat) :
  NoDup l -> Forall (fun j => (j < n)%nat) l -> i ∈ l ->
  S (length (filter
       (fun j => bool_decide (j ∈ l /\ j <> i) = true) (seq 0 n))) = length l.
Proof.
  intros Hnd Hlt Hi.
  change (length (i :: filter
    (fun j => bool_decide (j ∈ l /\ j <> i) = true) (seq 0 n)) = length l).
  apply Permutation_length, NoDup_Permutation; [|done|].
  - apply NoDup_cons. split; [|apply NoDup_filter, NoDup_seq].
    rewrite list_elem_of_filter, bool_decide_eq_true. tauto.
  - intros j. rewrite elem_of_cons, list_elem_of_filter, bool_decide_eq_true,
      elem_of_seq.
    split; [intros [->|[[? _] _]]; done|].
    intros Hj. destruct (decide (j = i)) as [->|Hne]; [by left|right].
    split; [done|]. rewrite Forall_forall in Hlt. specialize (Hlt j Hj). lia.
Qed.

Lemma planar_distance_lookup (coordinate : list (list Z)) (i : nat)
    (ci : list Z) :
  Forall (fun c => (2 <= length c)%nat) coordinate ->
  coordinate !! i = Some ci ->
  exists d, planar_distance (difference_from coordinate i) = Some d /\
    length d = length coordinate /\
    forall j cj, coordinate !! j = Some cj ->
      exists r, d !! j = Some r /\ root_val r = planar ci cj /\
                0 <= radicand r.
Proof.
  intros Hcols Hi. unfold planar_distance, difference_from. rewrite Hi.
  cbn [default]. rewrite Forall_forall in Hcols.
  pose proof (Hcols ci (list_elem_of_lookup_2 _ _ _ Hi)) as Hci.
  destruct ci as [|a0 [|a1 ci]]; cbn in Hci; try lia.
  set (dist := fun c : list Z =>
    match c with
    | c0 :: c1 :: _ => Sqrt ((c0 - a0) * (c0 - a0) + (c1 - a1) * (c1 - a1))
    | _ => Sqrt 0
    end).
  exists (map dist coordinate). split_and!.
  - apply mapM_Some, Forall2_fmap_l, Forall2_fmap_r, Forall_Forall2_diag.
    apply Forall_forall. intros c Hc. specialize (Hcols c Hc).
    destruct c as [|c0 [|c1 c]]; cbn in Hcols; try lia. done.
  - by rewrite length_map.
  - intros j cj Hj. exists (dist cj). split_and!.
    + change (map ?f ?l) with (f <$> l). by rewrite list_lookup_fmap, Hj.
    + specialize (Hcols cj (list_elem_of_lookup_2 _ _ _ Hj)).
      destruct cj as [|c0 [|c1 cj]]; cbn in Hcols; try lia.
      unfold root_val, planar, dist. cbn [radicand]. f_equal.
      by rewrite plus_IZR, !mult_IZR, !minus_IZR.
    + specialize (Hcols cj (list_elem_of_lookup_2 _ _ _ Hj)).
      destruct cj as [|c0 [|c1 cj]]; cbn in Hcols; try lia.
      unfold dist. cbn [radicand].
      pose proof (Z.square_nonneg (c0 - a0)).
      pose proof (Z.square_nonneg (c1 - a1)). lia.
Qed.

(** For [1 <= nearest_k < sample_n]: without [exclude_self] every row has
    exactly [nearest_k] entries, and with it, when no two points coincide,
    the diagonal is [False] and every row has [nearest_k] entries again; an
    entry that is set is never farther, in the plane of the first two
    coordinates, than one that is not (the point itself apart). *)
Lemma knearest_rows (argsort : list root -> list nat)
    (coordinate : list (list Z)) (nearest_k : Z) (exclude_self : bool) :
  argsort_ok argsort ->
  Forall (fun c => (2 <= length c)%nat) coordinate ->
  1 <= nearest_k < Z.of_nat (length coordinate) ->
  (exclude_self = true -> distinct_points coordinate) ->
  exists adjacency,
    get_adjacency_knearest argsort coordinate nearest_k exclude_self =
      Some adjacency /\
    shape adjacency = (length coordinate, length coordinate) /\
    forall i ci, coordinate !! i = Some ci ->
      row_count adjacency i = Z.to_nat nearest_k /\
      (exclude_self = true -> dok_get adjacency i i = false) /\
      forall j j' cj cj',
        coordinate !! j = Some cj -> coordinate !! j' = Some cj' ->
        dok_get adjacency i j = true -> dok_get adjacency i j' = false ->
        (exclude_self = true -> j' <> i) ->
        (planar ci cj <= planar ci cj')%R.
Proof.
  intros Hsort Hcols Hk Hdistinct.
  destruct (knearest_entries argsort coordinate nearest_k exclude_self Hcols)
    as (adjacency & Heq & Hshape & Hget).
  exists adjacency. split; [done|]. split; [done|].
  intros i ci Hi. pose proof (lookup_lt_Some _ _ _ Hi) as Hilt.
  destruct (planar_distance_lookup coordinate i ci Hcols Hi)
    as (d & Hd & Hdlen & Hdist).
  destruct (Hsort d) as [Hperm Hsorted]. rewrite Hdlen in Hperm.
  set (k := if exclude_self then nearest_k + 1 else nearest_k) in *.
  set (p := argsort d) in *.
  assert (Hplen : length p = length coordinate) by by rewrite Hperm, length_seq.
  assert (Hcolsi : knearest_cols argsort coordinate k i = take (Z.to_nat k) p).
  { unfold knearest_cols. rewrite Hd. fold p.
    destruct (py_slice_range p 0 k) as [-> _];
      [subst k; destruct exclude_self; lia..|].
    rewrite drop_0. f_equal. lia. }
  assert (Hrow : forall j,
    dok_get adjacency i j = true <->
    j ∈ take (Z.to_nat k) p /\ (exclude_self = true -> j <> i)).
  { intros j. rewrite Hget, Hcolsi. tauto. }
  assert (Hnd : NoDup (take (Z.to_nat k) p)).
  { eapply sublist_NoDup; [|apply sublist_take]. rewrite Hperm. apply NoDup_seq. }
  assert (Hlt : Forall (fun j => (j < length coordinate)%nat)
                  (take (Z.to_nat k) p)).
  { apply Forall_forall. intros j Hj. apply elem_of_take in Hj as (a & Ha & _).
    apply list_elem_of_lookup_2 in Ha. rewrite Hperm in Ha.
    apply elem_of_seq in Ha. lia. }
  assert (Htake : length (take (Z.to_nat k) p) = Z.to_nat k).
  { rewrite length_take. subst k. destruct exclude_self; lia. }
  (* with [exclude_self], the point itself comes first *)
  assert (Hself : exclude_self = true -> i ∈ take (Z.to_nat k) p).
  { intros He. destruct (lookup_lt_is_Some_2 p 0) as [j0 Hj0]; [lia|].
    assert (Hin : i ∈ p) by (rewrite Hperm; apply elem_of_seq; lia).
    apply list_elem_of_lookup in Hin as [b Hb].
    assert (Hj0lt : (j0 < length coordinate)%nat).
    { apply list_elem_of_lookup_2 in Hj0. rewrite Hperm in Hj0.
      apply elem_of_seq in Hj0. lia. }
    destruct (lookup_lt_is_Some_2 coordinate j0 Hj0lt) as [c0 Hc0].
    destruct (Hdist j0 c0 Hc0) as (r0 & Hr0 & Hv0 & Hpos0).
    destruct (Hdist i ci Hi) as (ri & Hri & Hvi & Hposi).
    pose proof (Hsorted 0%nat b j0 i r0 ri (Nat.le_0_l b) Hj0 Hb Hr0 Hri) as Hle.
    apply root_leb_spec in Hle; [|done..].
    assert (Hzero : planar ci ci = 0%R).
    { rewrite Forall_forall in Hcols.
      pose proof (Hcols ci (list_elem_of_lookup_2 _ _ _ Hi)) as Hci.
      destruct ci as [|a0 [|a1 ci]]; cbn in Hci; try lia.
      unfold planar. rewrite !Rminus_diag, Rmult_0_l, Rplus_0_l.
      apply sqrt_0. }
    assert (planar ci c0 = 0%R).
    { rewrite <- Hv0. rewrite Hvi, Hzero in Hle.
      pose proof (sqrt_pos (IZR (radicand r0))). unfold root_val in *. lra. }
    assert (i = j0) as <- by (eapply (Hdistinct He); done).
    apply elem_of_take. exists 0%nat. split; [done|].
    subst k. rewrite He. lia. }
  split_and!.
  - unfold row_count. rewrite Hshape. cbn [snd]. destruct exclude_self eqn:He.
    + rewrite (filter_ext_bool _
        (fun j => bool_decide (j ∈ take (Z.to_nat k) p /\ j <> i))).
      2:{ intros j _. apply eq_true_iff_eq.
          rewrite Hrow, bool_decide_eq_true. split; [|tauto].
          intros [? Hne]. split; [done|]. by apply Hne. }
      pose proof (count_members_but _ _ i Hnd Hlt (Hself eq_refl)) as Hcount.
      rewrite Htake in Hcount. subst k. lia.
    + rewrite (filter_ext_bool _
        (fun j => bool_decide (j ∈ take (Z.to_nat k) p))).
      2:{ intros j _. apply eq_true_iff_eq.
          rewrite Hrow, bool_decide_eq_true. split; [tauto|].
          intros ?. split; [done|]. discriminate. }
      rewrite (count_members _ _ Hnd Hlt), Htake. by subst k.
  - intros He. apply not_true_is_false. rewrite Hrow. intros [_ Hne].
    by apply Hne.
  - intros j j' cj cj' Hj Hj' Hset Hunset Hother.
    apply Hrow in Hset as [Hin _].
    apply elem_of_take in Hin as (a & Ha & Hak).
    assert (Hout : j' ∉ take (Z.to_nat k) p).
    { intros Hin'. rewrite <- not_true_iff_false, Hrow in Hunset. tauto. }
    assert (Hin' : j' ∈ p).
    { rewrite Hperm. apply elem_of_seq. apply lookup_lt_Some in Hj'. lia. }
    apply list_elem_of_lookup in Hin' as [b Hb].
    assert (Hab : (a <= b)%nat).
    { destruct (decide (a <= b)%nat); [done|]. destruct Hout.
      apply elem_of_take. exists b. split; [done|lia]. }
    destruct (Hdist j cj Hj) as (r & Hr & Hv & Hpos).
    destruct (Hdist j' cj' Hj') as (r' & Hr' & Hv' & Hpos').
    pose proof (Hsorted a b j j' r r' Hab Ha Hb Hr Hr') as Hle.
    apply root_leb_spec in Hle; [|done..]. by rewrite <- Hv, <- Hv'.
Qed.

(** With the insertion sort on the points (0,0), (3,4), (0,1). *)
Lemma knearest_rows_sample :
  exists adjacency,
    get_adjacency_knearest insertion_argsort [[0; 0]; [3; 4]; [0; 1]] 2 false =
      Some adjacency /\
    forall i, (i < 3)%nat -> row_count adjacency i = 2%nat.
Proof.
  destruct (knearest_rows insertion_argsort [[0; 0]; [3; 4]; [0; 1]] 2 false)
    as (adjacency & Heq & _ & Hrows).
  - apply insertion_argsort_ok.
  - by apply (bool_decide_unpack _).
  - cbn. lia.
  - discriminate.
  - exists adjacency. split; [exact Heq|]. intros i Hi.
    destruct (lookup_lt_is_Some_2 [[0; 0]; [3; 4]; [0; 1]] i Hi) as [ci Hci].
    by destruct (Hrows i ci Hci) as [-> _].
Qed.

(** ** The theorems at the sample data *)

Lemma rev_shuffle_perm (g : unit) (p : list nat) : (rev_shuffle g p).1 ≡ₚ p.
Proof. cbn. symmetry. apply Permutation_rev. Qed.

Lemma next_batch_size_witness :
  exists w' ev bx by_,
    next_batch rev_shuffle 2 true
      (run rev_shuffle [(2, true)] (sample_loader false, tt)).1 =
      (w', ev, Some (bx, Some by_)) /\
    Forall (fun b => Z.of_nat (length b) = 2) bx /\
    Z.of_nat (length by_) = 2.
Proof.
  destruct (next_batch_size rev_shuffle rev_shuffle_perm sample_xs sample_y
              (sample_loader false) tt [(2, true)] 2 true)
    as (w' & ev & bx & by_ & Hstep & _ & Hx & Hy & _).
  - reflexivity.
  - reflexivity.
  - repeat constructor; cbn; lia.
  - cbn; lia.
  - exists w', ev, bx, by_. split; [exact Hstep|]. split; [exact Hx|exact Hy].
Defined.

Lemma index_in_epoch_invariant_witness :
  index_ok (sample_loader false) /\
  index_ok (run rev_shuffle [(2, true); (3, false)] (sample_loader false, tt)).1.1.
Proof.
  destruct (index_in_epoch_invariant rev_shuffle rev_shuffle_perm sample_xs
              sample_y (sample_loader false) 2)
    as (Hinit & _ & Hrun).
  - reflexivity.
  - reflexivity.
  - cbn; lia.
  - split; [exact Hinit|].
    apply (Hrun tt [(2, true); (3, false)]). repeat constructor; cbn; lia.
Defined.


Lemma next_batch_for_eval_witness :
  exists w' bx,
    next_batch rev_shuffle 2 false
      (run rev_shuffle [(2, false); (2, false)] (sample_loader true, tt)).1 =
      (w', [Warning], Some (bx, None)).
Proof.
  destruct (next_batch_for_eval rev_shuffle rev_shuffle_perm sample_xs None
              (sample_loader true) tt [(2, false); (2, false)] 2 false)
    as (w' & bx & Hstep & _).
  - reflexivity.
  - exists w', bx. exact Hstep.
Defined.

Lemma neighbourhood_count_spec_witness :
  exists nb_count,
    (get_neighbourhood_count 1 2 true false sample_store).2 =
      Some (Matrix nb_count) /\
    length nb_count = 3%nat /\
    forall i t, (i < 3)%nat -> (t < 2)%nat ->
      entry nb_count i t =
      Some (neighbour_count sample_adjacency (Vector [0; 1; 1]) true i t).
Proof.
  apply (neighbourhood_count_spec sample_store 1 2 sample_adjacency
           (Vector [0; 1; 1]) 3 2 true false).
  - reflexivity.
  - reflexivity.
  - discriminate.
  - split; [reflexivity|]. by apply (bool_decide_unpack _).
  - split; [reflexivity|]. split; [reflexivity|]. by apply (bool_decide_unpack _).
Defined.



(** * Further properties *)

(** ** The loader: construction, failed calls and the order of the samples *)

Section DataLoader_more.
Context {A B RNG : Type}.
Variable shuffle : RNG -> list nat -> list nat * RNG.
Hypothesis shuffle_perm : forall g p, (shuffle g p).1 ≡ₚ p.

Implicit Types (l : DataLoader A B) (g : RNG).

Lemma init_fields (xs0 : list (list A)) (y0 : option (list B)) (ev : bool) l :
  __init__ xs0 y0 ev = Some l ->
  xs l = xs0 /\ y l = y0 /\ for_eval l = ev /\
  epochs_completed l = 0 /\ _index_in_epoch l = 0 /\
  Forall (fun x => Z.of_nat (length x) = sample_n l) xs0 /\
  _perm l = seq 0 (Z.to_nat (sample_n l)).
Proof.
  intros Hl. unfold __init__ in Hl. destruct xs0 as [|x0 xs1]; [done|].
  destruct (forallb _ _) eqn:Hall; [|done]. injection Hl as <-. cbn.
  split_and!; try done; [|by rewrite Nat2Z.id].
  apply Forall_forall. intros x Hx. rewrite forallb_forall in Hall.
  apply list_elem_of_In, Hall, Nat.eqb_eq in Hx. lia.
Qed.

(** X1: the constructor raises exactly on an empty tuple and on arrays of
    different first dimensions; the labels are not looked at.  What it
    returns starts at epoch 0, index 0, with the identity permutation. *)
Theorem init_spec (xs0 : list (list A)) (y0 : option (list B)) (ev : bool) :
  (is_Some (__init__ xs0 y0 ev) <->
   xs0 <> [] /\ forall x x', x ∈ xs0 -> x' ∈ xs0 -> length x = length x') /\
  forall l, __init__ xs0 y0 ev = Some l ->
    xs l = xs0 /\ y l = y0 /\ for_eval l = ev /\
    epochs_completed l = 0 /\ _index_in_epoch l = 0 /\
    Forall (fun x => Z.of_nat (length x) = sample_n l) xs0 /\
    _perm l = seq 0 (Z.to_nat (sample_n l)).
Proof.
  split; [|apply init_fields].
  unfold __init__. destruct xs0 as [|x0 xs1]; [split; [by intros []|by intros []]|].
  destruct (forallb _ _) eqn:Hall.
  - split; [intros _|done]. split; [done|]. intros x x' Hx Hx'.
    rewrite forallb_forall in Hall.
    apply list_elem_of_In, Hall, Nat.eqb_eq in Hx.
    apply list_elem_of_In, Hall, Nat.eqb_eq in Hx'. lia.
  - split; [by intros []|]. intros [_ Hsame].
    apply not_true_iff_false in Hall. destruct Hall.
    apply forallb_forall. intros x Hx. apply Nat.eqb_eq, Hsame.
    + by apply list_elem_of_In.
    + apply elem_of_cons. by left.
Qed.

(** X2: a training loader built without labels raises at every call, and
    the call has advanced the loader all the same: past the batch when the
    batch lies within the epoch, to the next epoch count otherwise. *)
Theorem next_batch_without_labels l g (batch_size : Z) (sh : bool) :
  for_eval l = false -> y l = None ->
  exists l' g' ev,
    next_batch shuffle batch_size sh (l, g) = ((l', g'), ev, None) /\
    if sample_n l <=? _index_in_epoch l + batch_size
    then epochs_completed l' = epochs_completed l + 1 /\
         _index_in_epoch l' = _index_in_epoch l
    else epochs_completed l' = epochs_completed l /\
         _index_in_epoch l' = _index_in_epoch l + batch_size.
Proof.
  intros Hev Hy. unfold next_batch.
  unfold mbind at 1 2 3. unfold M_bind at 1 2 3. unfold self at 1.
  cbn [fst snd]. rewrite Hev, andb_false_r. cbn [when mret M_ret].
  set (first := (epochs_completed l =? 0) && (_index_in_epoch l =? 0) && sh).
  rewrite when_shuffle.
  set (s1 := if first then shuffle g (_perm l) else (_perm l, g)).
  clearbody s1.
  destruct s1 as [p1 g1]. cbn [fst snd].
  assert (Hread : forall l2 positions,
    for_eval l2 = false -> y l2 = None ->
    read_into_memory positions (l2, g1) = ((l2, g1), [], None)).
  { intros l2 positions Hev2 Hy2. unfold read_into_memory, mbind, M_bind, self.
    cbn. by rewrite Hev2, Hy2. }
  destruct (sample_n l <=? _index_in_epoch l + batch_size).
  - unfold mbind at 1 2 3. unfold M_bind at 1 2 3. unfold assign at 1, self at 1.
    cbn [fst snd]. rewrite Hread by done. by do 3 eexists.
  - unfold mbind at 1 2. unfold M_bind at 1 2. unfold assign at 1, self at 1.
    cbn [fst snd]. rewrite Hread by done. by do 3 eexists.
Qed.

Lemma take_app_py_slice {T} (p : list T) (lo hi : Z) :
  0 <= lo <= hi -> hi <= Z.of_nat (length p) ->
  take (Z.to_nat lo) p ++ py_slice p lo hi = take (Z.to_nat hi) p.
Proof.
  intros Hlo Hhi. destruct (py_slice_range p lo hi) as [-> _]; [done..|].
  rewrite take_take_drop. f_equal. lia.
Qed.

Lemma take_app_py_slice_end {T} (p : list T) (lo : Z) :
  0 <= lo <= Z.of_nat (length p) ->
  take (Z.to_nat lo) p ++ py_slice p lo (Z.of_nat (length p)) = p.
Proof.
  intros Hlo. rewrite take_app_py_slice by lia.
  apply take_ge. lia.
Qed.

Lemma returned_at_same_data l l' positions out :
  same_data l l' -> returned_at l' positions out -> returned_at l positions out.
Proof.
  intros (Hxs & Hy & _ & Hev) (bx & by_ & Hout & Hbx & Hby).
  exists bx, by_. by rewrite <- Hxs, <- Hev, <- Hy.
Qed.

(** One training call, seen as a step along the stream of positions. *)
Lemma next_batch_train_stream l g (batch_size : Z) (sh : bool) :
  loader_ok l -> index_ok l -> for_eval l = false ->
  1 <= batch_size <= sample_n l ->
  exists l' g' ev r positions epochs,
    next_batch shuffle batch_size sh (l, g) = ((l', g'), ev, r) /\
    loader_ok l' /\ index_ok l' /\ same_data l l' /\
    returned_at l positions (ev, r) /\
    Forall (fun e => e ≡ₚ seq 0 (Z.to_nat (sample_n l))) epochs /\
    epochs_completed l' = epochs_completed l + Z.of_nat (length epochs) /\
    take (Z.to_nat (_index_in_epoch l)) (_perm l) ++ positions =
      concat epochs ++ take (Z.to_nat (_index_in_epoch l')) (_perm l') /\
    (sh = false -> _perm l' = _perm l /\ Forall (fun e => e = _perm l) epochs).
Proof.
  intros Hok Hidx Hev Hbs.
  destruct (next_batch_train shuffle shuffle_perm l g batch_size sh Hok Hidx Hev Hbs)
    as (l' & b & Hstep & Hsame & Hperm & Hep & Hix & Hat & Hok' & Hidx').
  set (first := (epochs_completed l =? 0) && (_index_in_epoch l =? 0) && sh) in *.
  set (s1 := if first then shuffle g (_perm l) else (_perm l, g)) in *.
  set (finished := sample_n l <=? _index_in_epoch l + batch_size) in *.
  set (s2 := if finished && sh then shuffle s1.2 s1.1 else s1) in *.
  assert (Hs1 : s1.1 ≡ₚ _perm l).
  { subst s1. destruct first; [apply shuffle_perm|done]. }
  assert (Hs2 : s2.1 ≡ₚ _perm l).
  { subst s2. destruct (finished && sh); [by rewrite shuffle_perm|done]. }
  pose proof (loader_ok_perm_length _ Hok) as Hplen.
  assert (Hp1len : Z.of_nat (length s1.1) = sample_n l).
  { rewrite Hs1. unfold index_ok in Hidx. lia. }
  assert (Hhead : take (Z.to_nat (_index_in_epoch l)) (_perm l) =
                  take (Z.to_nat (_index_in_epoch l)) s1.1).
  { subst s1. destruct first eqn:Hfirst; [|done]. subst first.
    apply andb_true_iff in Hfirst as [Hfirst _].
    apply andb_true_iff in Hfirst as [_ Hz]. apply Z.eqb_eq in Hz.
    by rewrite Hz. }
  assert (Hwhole : take (Z.to_nat (_index_in_epoch l)) s1.1 ++
                   py_slice s1.1 (_index_in_epoch l) (sample_n l) = s1.1).
  { rewrite <- Hp1len. apply take_app_py_slice_end. unfold index_ok in Hidx. lia. }
  destruct Hat as [Hbx (yv & by_ & Hyv & Hby & Hrows)].
  destruct b as [bx by0]. cbn [fst snd] in *. subst by0.
  exists l', s2.2,
    ((if first then [Shuffled] else []) ++
     (if finished && sh then [Shuffled] else [])), (Some (bx, Some by_)),
    (batch_positions s1.1 s2.1 (sample_n l) (_index_in_epoch l) batch_size),
    (if finished then [s1.1] else []).
  split_and!; try done.
  - exists bx, (Some by_). split_and!; try done. rewrite Hev. by exists yv, by_.
  - destruct finished; [|done]. constructor; [|done].
    by rewrite Hs1, (ok_perm _ Hok).
  - destruct finished; cbn; lia.
  - rewrite Hhead, Hix, Hperm. unfold batch_positions. fold finished.
    unfold index_ok in Hidx.
    destruct finished eqn:Hfin; subst finished.
    + apply Z.leb_le in Hfin. cbn [concat]. rewrite app_nil_r, app_assoc.
      rewrite Hwhole.
      f_equal. destruct (py_slice_range s2.1 0
        (_index_in_epoch l + batch_size - sample_n l)) as [-> _]; [lia| |].
      { rewrite Hs2. lia. }
      rewrite drop_0. f_equal. lia.
    + apply Z.leb_gt in Hfin. cbn [concat app].
      subst s2. cbn [andb]. apply take_app_py_slice; lia.
  - intros Hsh. rewrite Hperm. subst s2 s1 first.
    rewrite Hsh, !andb_false_r. cbn [fst snd]. split; [done|].
    destruct finished; by repeat constructor.
Qed.

Lemma run_train_stream l g (calls : list (Z * bool)) :
  loader_ok l -> index_ok l -> for_eval l = false ->
  Forall (fun c => 1 <= c.1 <= sample_n l) calls ->
  exists l' g' outs positions epochs,
    run shuffle calls (l, g) = ((l', g'), outs) /\
    Forall2 (returned_at l) positions outs /\
    Forall (fun e => e ≡ₚ seq 0 (Z.to_nat (sample_n l))) epochs /\
    epochs_completed l' = epochs_completed l + Z.of_nat (length epochs) /\
    take (Z.to_nat (_index_in_epoch l)) (_perm l) ++ concat positions =
      concat epochs ++ take (Z.to_nat (_index_in_epoch l')) (_perm l') /\
    (Forall (fun c => c.2 = false) calls ->
     _perm l' = _perm l /\ Forall (fun e => e = _perm l) epochs).
Proof.
  intros Hok Hidx Hev Hcalls. revert l g Hok Hidx Hev Hcalls.
  induction calls as [|[bs sh] calls IH]; intros l g Hok Hidx Hev Hcalls.
  - exists l, g, [], [], []. cbn. rewrite !app_nil_r.
    split_and!; try done; lia.
  - apply Forall_cons in Hcalls as [Hbs Hcalls]. cbn [fst] in Hbs.
    destruct (next_batch_train_stream l g bs sh Hok Hidx Hev Hbs)
      as (l1 & g1 & ev & r & pos & eps & Hstep & Hok1 & Hidx1 & Hsame & Hret
          & Heps & Hep & Hcat & Hsh).
    destruct Hsame as (Hxs & Hy & Hn & Hev1).
    destruct (IH l1 g1 Hok1 Hidx1) as (l' & g' & outs & poss & eps' & Hrun
      & Hrets & Heps' & Hep' & Hcat' & Hsh'); [congruence| |].
    { rewrite Hn. exact Hcalls. }
    exists l', g', ((ev, r) :: outs), (pos :: poss), (eps ++ eps').
    split_and!.
    + cbn [run]. by rewrite Hstep, Hrun.
    + constructor; [done|]. eapply Forall2_impl; [exact Hrets|].
      intros p o. by apply returned_at_same_data.
    + apply Forall_app. split; [done|]. by rewrite <- Hn.
    + rewrite length_app. lia.
    + cbn [concat]. rewrite app_assoc, Hcat, <- app_assoc, Hcat'.
      by rewrite concat_app, app_assoc.
    + intros Hall. apply Forall_cons in Hall as [Hsh0 Hall]. cbn in Hsh0.
      destruct (Hsh Hsh0) as [Hp1 He1]. destruct (Hsh' Hall) as [Hp2 He2].
      rewrite Hp1 in Hp2, He2. split; [done|]. by apply Forall_app.
Qed.

(** X3: on a training loader, whatever the batch sizes in [1, sample_n]
    and the shuffle flags, the batches laid end to end are whole epochs
    followed by the part served of the current one: as many full passes as
    [epochs_completed] counts, each a permutation of all the samples, then
    the first [_index_in_epoch] positions of the current permutation.  No
    sample is skipped or repeated within an epoch; without shuffling every
    pass is in the order of the arrays. *)
Theorem training_epochs_cover_samples (xs0 : list (list A)) (yv : list B) g
    (calls : list (Z * bool)) l0 :
  __init__ xs0 (Some yv) false = Some l0 ->
  Z.of_nat (length yv) = sample_n l0 ->
  Forall (fun c => 1 <= c.1 <= sample_n l0) calls ->
  exists l' g' outs positions epochs,
    run shuffle calls (l0, g) = ((l', g'), outs) /\
    Forall2 (returned_at l0) positions outs /\
    Forall (fun e => e ≡ₚ seq 0 (Z.to_nat (sample_n l0))) epochs /\
    Z.of_nat (length epochs) = epochs_completed l' /\
    concat positions =
      concat epochs ++ take (Z.to_nat (_index_in_epoch l')) (_perm l') /\
    (Forall (fun c => c.2 = false) calls ->
     Forall (fun e => e = seq 0 (Z.to_nat (sample_n l0))) epochs /\
     _perm l' = seq 0 (Z.to_nat (sample_n l0))).
Proof.
  intros Hinit Hy Hcalls.
  destruct (init_ok xs0 (Some yv) false l0 Hinit)
    as (Hok & Hxs & Hy0 & Hev & Hep & Hix & Hperm); [by exists yv|].
  destruct calls as [|c calls].
  { exists l0, g, [], [], []. cbn. rewrite Hix, Hep. by split_and!. }
  assert (Hidx : index_ok l0).
  { apply Forall_cons in Hcalls as [Hc _]. unfold index_ok. lia. }
  destruct (run_train_stream l0 g (c :: calls) Hok Hidx Hev Hcalls)
    as (l' & g' & outs & poss & eps & Hrun & Hrets & Heps & Hep' & Hcat & Hsh).
  exists l', g', outs, poss, eps. rewrite Hix in Hcat. cbn in Hcat.
  split_and!; try done; [lia|].
  intros Hall. destruct (Hsh Hall) as [Hp He]. rewrite Hperm in Hp, He. done.
Qed.

(** One evaluation call, seen as a step along the stream of positions. *)
Lemma next_batch_eval_stream l g (batch_size : Z) (sh : bool) :
  loader_ok l -> for_eval l = true ->
  0 <= _index_in_epoch l <= sample_n l -> 0 <= batch_size ->
  let first := (epochs_completed l =? 0) && (_index_in_epoch l =? 0) && sh in
  exists l' g' ev r positions epochs,
    next_batch shuffle batch_size sh (l, g) = ((l', g'), ev, r) /\
    loader_ok l' /\ 0 <= _index_in_epoch l' <= sample_n l' /\ same_data l l' /\
    returned_at l positions (ev, r) /\
    _perm l' = (if first then shuffle g (_perm l) else (_perm l, g)).1 /\
    g' = (if first then shuffle g (_perm l) else (_perm l, g)).2 /\
    Forall (fun e => e = _perm l') epochs /\
    epochs_completed l' = epochs_completed l + Z.of_nat (length epochs) /\
    take (Z.to_nat (_index_in_epoch l)) (_perm l) ++ positions =
      concat epochs ++ take (Z.to_nat (_index_in_epoch l')) (_perm l') /\
    (1 <= batch_size -> epochs_completed l' <> 0 \/ _index_in_epoch l' <> 0).
Proof.
  intros Hok Hev Hidx Hbs first.
  destruct (next_batch_eval shuffle shuffle_perm l g batch_size sh Hok Hev)
    as (l' & bx & Hstep & Hsame & Hperm & Hep & Hix & Hbx & _ & Hok' & Hidx');
    [lia|].
  fold first in Hstep, Hperm.
  set (s1 := if first then shuffle g (_perm l) else (_perm l, g)) in *.
  set (finished := sample_n l <=? _index_in_epoch l + batch_size) in *.
  assert (Hs1 : s1.1 ≡ₚ _perm l).
  { subst s1. destruct first; [apply shuffle_perm|done]. }
  pose proof (loader_ok_perm_length _ Hok) as Hplen.
  assert (Hp1len : Z.of_nat (length s1.1) = sample_n l).
  { rewrite Hs1. lia. }
  assert (Hhead : take (Z.to_nat (_index_in_epoch l)) (_perm l) =
                  take (Z.to_nat (_index_in_epoch l)) s1.1).
  { subst s1. destruct first eqn:Hfirst; [|done]. subst first.
    apply andb_true_iff in Hfirst as [Hfirst _].
    apply andb_true_iff in Hfirst as [_ Hz]. apply Z.eqb_eq in Hz.
    by rewrite Hz. }
  assert (Hwhole : take (Z.to_nat (_index_in_epoch l)) s1.1 ++
                   py_slice s1.1 (_index_in_epoch l) (sample_n l) = s1.1).
  { rewrite <- Hp1len. apply take_app_py_slice_end. lia. }
  pose proof (ok_epochs _ Hok) as Hep0.
  exists l', s1.2,
    ((if 1 <=? epochs_completed l then [Warning] else []) ++
     (if first then [Shuffled] else [])), (Some (bx, None)),
    (py_slice s1.1 (_index_in_epoch l)
       (if finished then sample_n l else _index_in_epoch l + batch_size)),
    (if finished then [s1.1] else []).
  split_and!; try done.
  - rewrite Hix. destruct finished; lia.
  - exists bx, None. by rewrite Hev.
  - rewrite Hperm. destruct finished; by repeat constructor.
  - destruct finished; cbn; lia.
  - rewrite Hhead, Hix, Hperm.
    destruct finished eqn:Hfin; subst finished.
    + cbn [concat]. rewrite app_nil_r. cbn [Z.to_nat take]. rewrite app_nil_r.
      exact Hwhole.
    + apply Z.leb_gt in Hfin. cbn [concat app]. apply take_app_py_slice; lia.
  - intros Hbs1. rewrite Hep, Hix.
    destruct finished; [left|right]; lia.
Qed.

Lemma run_eval_stream l g (calls : list (Z * bool)) :
  loader_ok l -> for_eval l = true ->
  0 <= _index_in_epoch l <= sample_n l ->
  Forall (fun c => 0 <= c.1) calls ->
  exists l' g' outs positions epochs,
    run shuffle calls (l, g) = ((l', g'), outs) /\
    Forall2 (returned_at l) positions outs /\
    epochs_completed l' = epochs_completed l + Z.of_nat (length epochs) /\
    take (Z.to_nat (_index_in_epoch l)) (_perm l) ++ concat positions =
      concat epochs ++ take (Z.to_nat (_index_in_epoch l')) (_perm l') /\
    (epochs_completed l <> 0 \/ _index_in_epoch l <> 0 ->
     _perm l' = _perm l /\ Forall (fun e => e = _perm l) epochs).
Proof.
  intros Hok Hev Hidx Hcalls. revert l g Hok Hidx Hev Hcalls.
  induction calls as [|[bs sh] calls IH]; intros l g Hok Hidx Hev Hcalls.
  - exists l, g, [], [], []. cbn. rewrite !app_nil_r.
    split_and!; try done; lia.
  - apply Forall_cons in Hcalls as [Hbs Hcalls]. cbn [fst] in Hbs.
    destruct (next_batch_eval_stream l g bs sh Hok Hev Hidx Hbs)
      as (l1 & g1 & ev & r & pos & eps & Hstep & Hok1 & Hidx1 & Hsame & Hret
          & Hperm & _ & Heps & Hep & Hcat & _).
    destruct Hsame as (Hxs & Hy & Hn & Hev1).
    destruct (IH l1 g1 Hok1 Hidx1) as (l' & g' & outs & poss & eps' & Hrun
      & Hrets & Hep' & Hcat' & Hsh'); [congruence|done|].
    exists l', g', ((ev, r) :: outs), (pos :: poss), (eps ++ eps').
    split_and!.
    + cbn [run]. by rewrite Hstep, Hrun.
    + constructor; [done|]. eapply Forall2_impl; [exact Hrets|].
      intros p o. by apply returned_at_same_data.
    + rewrite length_app. lia.
    + cbn [concat]. rewrite app_assoc, Hcat, <- app_assoc, Hcat'.
      by rewrite concat_app, app_assoc.
    + intros Hnf.
      assert (Hfirst : (epochs_completed l =? 0) && (_index_in_epoch l =? 0)
                       && sh = false).
      { destruct Hnf as [Hnf|Hnf]; apply Z.eqb_neq in Hnf; rewrite Hnf;
          [done|by rewrite andb_false_r]. }
      rewrite Hfirst in Hperm. cbn [fst] in Hperm.
      assert (Hnf1 : epochs_completed l1 <> 0 \/ _index_in_epoch l1 <> 0).
      { pose proof (ok_epochs _ Hok). rewrite Hep.
        destruct eps as [|e eps]; [|left; cbn [length]; lia].
        cbn [concat app] in Hcat.
        destruct Hnf as [Hnf|Hnf]; [left; cbn [length]; lia|right].
        intros Hz. rewrite Hz in Hcat. cbn in Hcat.
        apply (f_equal length) in Hcat. rewrite length_app, !length_take in Hcat.
        pose proof (loader_ok_perm_length _ Hok). lia. }
      destruct (Hsh' Hnf1) as [Hp2 He2]. rewrite Hperm in Hp2, He2, Heps.
      split; [done|]. by apply Forall_app.
Qed.

(** X4: an evaluation loader serves its rows in one fixed order, pass after
    pass.  The batches laid end to end are [epochs_completed] copies of the
    permutation followed by its first [_index_in_epoch] positions, so every
    pass returns every sample exactly once.  The order is the one of the
    arrays unless the first call is made with [shuffle = True], the default,
    and then it is the shuffled permutation of that call; later flags have
    no effect.  Labels are never returned. *)
Theorem evaluation_pass_order (xs0 : list (list A)) (y0 : option (list B)) g
    (calls : list (Z * bool)) l0 :
  __init__ xs0 y0 true = Some l0 ->
  Forall (fun c => 1 <= c.1) calls ->
  let order :=
    match calls with
    | (_, true) :: _ => (shuffle g (seq 0 (Z.to_nat (sample_n l0)))).1
    | _ => seq 0 (Z.to_nat (sample_n l0))
    end in
  exists l' g' outs positions,
    run shuffle calls (l0, g) = ((l', g'), outs) /\
    Forall2 (returned_at l0) positions outs /\
    order ≡ₚ seq 0 (Z.to_nat (sample_n l0)) /\
    _perm l' = order /\
    concat positions =
      concat (replicate (Z.to_nat (epochs_completed l')) order) ++
      take (Z.to_nat (_index_in_epoch l')) order.
Proof.
  intros Hinit Hcalls order.
  destruct (init_ok xs0 y0 true l0 Hinit)
    as (Hok & Hxs & Hy0 & Hev & Hep & Hix & Hperm); [done|].
  pose proof (loader_ok_perm_length _ Hok) as Hplen.
  assert (Hn0 : 0 <= sample_n l0).
  { pose proof (ok_xs _ Hok) as Hne. pose proof (ok_rows _ Hok) as Hrows.
    destruct (xs l0) as [|x0 ?]; [done|].
    apply Forall_cons in Hrows as [Hx0 _]. lia. }
  destruct calls as [|[bs sh] calls].
  { exists l0, g, [], []. subst order. cbn. rewrite Hix, Hep. by split_and!. }
  apply Forall_cons in Hcalls as [Hbs Hcalls]. cbn [fst] in Hbs.
  destruct (next_batch_eval_stream l0 g bs sh Hok Hev)
    as (l1 & g1 & ev & r & pos & eps & Hstep & Hok1 & Hidx1 & Hsame & Hret
        & Hperm1 & _ & Heps & Hep1 & Hcat & Hnf); [lia..|].
  rewrite Hep, Hix in Hperm1. cbn [Z.eqb andb] in Hperm1.
  assert (Horder : _perm l1 = order).
  { rewrite Hperm1, Hperm. subst order. by destruct sh. }
  destruct Hsame as (Hxs1 & Hy1 & Hn & Hev1).
  destruct (run_eval_stream l1 g1 calls Hok1) as (l' & g' & outs & poss & eps'
    & Hrun & Hrets & Hep' & Hcat' & Hsh'); [congruence|done| |].
  { eapply Forall_impl; [exact Hcalls|]. intros c Hc. simpl in Hc. lia. }
  destruct (Hsh' (Hnf Hbs)) as [Hp He].
  exists l', g', ((ev, r) :: outs), (pos :: poss).
  split_and!.
  - cbn [run]. by rewrite Hstep, Hrun.
  - constructor; [done|]. eapply Forall2_impl; [exact Hrets|].
    intros p o. by apply returned_at_same_data.
  - rewrite <- Horder, (ok_perm _ Hok1). by rewrite Hn.
  - by rewrite Hp.
  - rewrite Hix in Hcat. change (Z.to_nat 0) with 0%nat in Hcat.
    rewrite take_0 in Hcat. cbn [app] in Hcat.
    cbn [concat]. rewrite Hcat, <- app_assoc, Hcat', app_assoc, <- concat_app.
    rewrite Hp, Horder in *. f_equal. f_equal.
    assert (Hall : Forall (fun e => e = order) (eps ++ eps'))
      by by apply Forall_app.
    assert (Hlen : length (eps ++ eps') = Z.to_nat (epochs_completed l')).
    { rewrite length_app. lia. }
    rewrite <- Hlen. clear -Hall.
    induction Hall as [|e es -> _ IH]; [done|]. cbn. by rewrite <- IH.
Qed.

Lemma read_into_memory_IndexError l g (positions : list nat) (yv : list B) :
  for_eval l = false -> y l = Some yv -> take_rows yv positions = None ->
  read_into_memory positions (l, g) = ((l, g), [], None).
Proof.
  intros Hev Hy Hrows. unfold read_into_memory, mbind, M_bind, self.
  cbn. by rewrite Hev, Hy, Hrows.
Qed.

(** X5: the constructor does not compare the labels with the arrays.  With
    fewer labels than samples the loader is built, and a call for a whole
    epoch ([batch_size = sample_n]) raises, whatever the permutation: some
    position has no label. *)
Theorem short_labels_raise (xs0 : list (list A)) (yv : list B) g (sh : bool) l0 :
  __init__ xs0 (Some yv) false = Some l0 ->
  Z.of_nat (length yv) < sample_n l0 ->
  exists w ev, next_batch shuffle (sample_n l0) sh (l0, g) = (w, ev, None).
Proof.
  intros Hinit Hshort.
  destruct (init_fields _ _ _ _ Hinit) as (Hxs & Hy & Hev & Hep & Hix & _ & Hperm).
  unfold next_batch. unfold mbind at 1 2 3. unfold M_bind at 1 2 3.
  unfold self at 1. cbn [fst snd].
  rewrite Hev, andb_false_r. cbn [when mret M_ret].
  set (first := (epochs_completed l0 =? 0) && (_index_in_epoch l0 =? 0) && sh).
  rewrite when_shuffle.
  set (s1 := if first then shuffle g (_perm l0) else (_perm l0, g)).
  assert (Hs1 : s1.1 ≡ₚ seq 0 (Z.to_nat (sample_n l0))).
  { subst s1. rewrite <- Hperm. destruct first; [apply shuffle_perm|done]. }
  clearbody s1. destruct s1 as [p1 g1]. cbn [fst snd] in *.
  rewrite Hix. replace (sample_n l0 <=? 0 + sample_n l0) with true
    by (symmetry; apply Z.leb_le; lia).
  unfold mbind at 1 2 3. unfold M_bind at 1 2 3. unfold assign at 1, self at 1.
  cbn [fst snd].
  rewrite (read_into_memory_IndexError _ _ _ yv); [by do 2 eexists|done|done|].
  cbn [_perm set_epochs_completed set_perm].
  assert (Hlen : Z.of_nat (length p1) = sample_n l0).
  { rewrite Hs1, length_seq. lia. }
  destruct (py_slice_range p1 0 (sample_n l0)) as [-> _]; [lia..|].
  rewrite drop_0, take_ge by lia.
  destruct (take_rows yv p1) as [r|] eqn:Hr; [|done]. exfalso.
  assert (Hin : length yv ∈ p1).
  { rewrite Hs1. apply elem_of_seq. lia. }
  unfold take_rows in Hr. apply mapM_Some_1 in Hr.
  apply list_elem_of_lookup in Hin as [k Hk].
  destruct (Forall2_lookup_l _ _ _ _ _ Hr Hk) as (b & _ & Hb).
  apply lookup_lt_Some in Hb. lia.
Qed.



End DataLoader_more.

(** ** tag2int and one_hot_vector *)

Section label_encodings.
Context {A : Type} `{EqDecision A}.

Lemma index_lookup (tags : list A) (x : A) (k : nat) :
  index tags x = Some k -> tags !! k = Some x.
Proof.
  revert k. induction tags as [|t ts IH]; intros k; [done|]. simpl.
  destruct (decide (t = x)) as [->|Hne].
  - by intros [= <-].
  - destruct (index ts x) as [k'|]; [|done]. intros [= <-]. by apply IH.
Qed.

Lemma index_None (tags : list A) (x : A) : index tags x = None <-> x ∉ tags.
Proof.
  induction tags as [|t ts IH]; simpl.
  - split; [intros _; apply not_elem_of_nil|done].
  - rewrite not_elem_of_cons. destruct (decide (t = x)) as [->|Hne].
    + split; [done|]. by intros [? _].
    + destruct (index ts x) as [k|]; simpl.
      * split; [done|]. intros [_ Hx]. by apply IH in Hx.
      * split; [|done]. intros _. split; [done|]. by apply IH.
Qed.

Variable list_of_set : list A -> list A.
Hypothesis list_of_set_NoDup : forall l, NoDup (list_of_set l).
Hypothesis list_of_set_elem : forall l x, x ∈ list_of_set l <-> x ∈ l.

Lemma tag2int_Some (label : list A) :
  exists int_label,
    tag2int list_of_set label = Some (int_label, list_of_set label) /\
    Forall2 (fun x k => index (list_of_set label) x = Some k) label int_label.
Proof.
  unfold tag2int. set (tags := list_of_set label).
  assert (Hall : Forall (is_Some ∘ index tags) label).
  { apply Forall_forall. intros x Hx. simpl.
    destruct (index_elem_of tags x) as (k & -> & _); [|done].
    by apply list_of_set_elem. }
  apply mapM_is_Some in Hall as [int_label Hmap].
  exists int_label. rewrite Hmap. split; [done|]. by apply mapM_Some.
Qed.

Lemma tag2int_range (label : list A) (int_label : list nat) :
  Forall2 (fun x k => index (list_of_set label) x = Some k) label int_label ->
  forall k, k ∈ int_label <-> (k < length (list_of_set label))%nat.
Proof.
  intros Hidx k. split.
  - intros Hk. apply list_elem_of_lookup in Hk as [i Hi].
    destruct (Forall2_lookup_r _ _ _ _ _ Hidx Hi) as (x & Hx & Hkx).
    apply index_lookup in Hkx. by eapply lookup_lt_Some.
  - intros Hk. apply lookup_lt_is_Some in Hk as [t Ht].
    assert (Hin : t ∈ label).
    { apply list_of_set_elem. by eapply list_elem_of_lookup_2. }
    apply list_elem_of_lookup in Hin as [i Hi].
    destruct (Forall2_lookup_l _ _ _ _ _ Hidx Hi) as (k' & Hk' & Hkt).
    apply index_lookup in Hkt.
    assert (k' = k) as ->
      by (eapply NoDup_lookup; [apply (list_of_set_NoDup label)|done..]).
    by eapply list_elem_of_lookup_2.
Qed.

Lemma unique_n_range (int_label : list nat) (m : nat) :
  (forall k, k ∈ int_label <-> (k < m)%nat) ->
  unique_n (Z.of_nat <$> int_label) = m.
Proof.
  intros Hsurj. unfold unique_n.
  assert (Hp : remove_dups (Z.of_nat <$> int_label) ≡ₚ Z.of_nat <$> seq 0 m).
  { apply NoDup_Permutation.
    - apply NoDup_remove_dups.
    - apply NoDup_fmap; [intros a b; apply Nat2Z.inj|apply NoDup_seq].
    - intros z. rewrite elem_of_remove_dups, !list_elem_of_fmap.
      split; intros (k & -> & Hk); exists k; (split; [done|]).
      + apply elem_of_seq. apply Hsurj in Hk. lia.
      + apply Hsurj. apply elem_of_seq in Hk. lia. }
  by rewrite Hp, length_fmap, length_seq.
Qed.

(** X6: the integers of [tag2int] separate the labels and leave no gap:
    two positions get the same integer exactly when they hold the same
    label, and the integers that occur are exactly those below [len(tags)].
    So the integer vector is a label [get_neighbourhood_count] accepts with
    [one_hot_label = False], with [len(tags)] classes. *)
Theorem tag2int_canonical (label : list A) (int_label : list nat)
    (tags : list A) :
  tag2int list_of_set label = Some (int_label, tags) ->
  (forall i j k k',
     int_label !! i = Some k -> int_label !! j = Some k' ->
     (k = k' <-> label !! i = label !! j)) /\
  (forall k, k ∈ int_label <-> (k < length tags)%nat) /\
  label_ok false (length label) (length tags)
    (Vector (Z.of_nat <$> int_label)).
Proof.
  intros Htag. destruct (tag2int_Some label) as (il & Htag' & Hidx).
  rewrite Htag in Htag'. injection Htag' as <- ->.
  pose proof (tag2int_range _ _ Hidx) as Hsurj.
  set (tags := list_of_set label) in *.
  split_and!.
  - intros i j k k' Hi Hj.
    destruct (Forall2_lookup_r _ _ _ _ _ Hidx Hi) as (x & Hx & Hkx).
    destruct (Forall2_lookup_r _ _ _ _ _ Hidx Hj) as (x' & Hx' & Hkx').
    rewrite Hx, Hx'. split.
    + intros <-. apply index_lookup in Hkx, Hkx'. congruence.
    + intros [= <-]. congruence.
  - done.
  - cbn. split_and!.
    + rewrite length_fmap. symmetry. by eapply Forall2_length.
    + symmetry. by apply unique_n_range.
    + apply Forall_fmap, Forall_forall. intros k Hk. simpl.
      apply Hsurj in Hk. lia.
Qed.

Lemma zip_with_map_same {T U V W} (f : U -> V -> W) (g : T -> U) (h : T -> V)
    (l : list T) :
  zip_with f (map g l) (map h l) = map (fun x => f (g x) (h x)) l.
Proof. induction l as [|x l IH]; [done|]. cbn. by rewrite IH. Qed.

(** The loop of [one_hot_vector] over (position, tag) pairs, on a matrix
    given row by row as a function of the label of the row. *)
Lemma one_hot_loop_Some (label : list A) (c : nat) (ts : list (nat * A))
    (rowf : A -> list Z) :
  (forall j t, (j, t) ∈ ts -> t ∈ label -> (j < c)%nat) ->
  foldl (fun acc '(tag_idx, tag) =>
           one_hot ← acc;
           set_masked_column c (map (fun x => bool_decide (x = tag)) label)
             tag_idx one_hot)
    (Some (map rowf label)) ts =
  Some (map (fun x =>
          foldl (fun r '(j, t) => if decide (x = t) then <[j := 1]> r else r)
            (rowf x) ts) label).
Proof.
  revert rowf. induction ts as [|[j t] ts IH]; intros rowf Hin; [done|].
  cbn [foldl]. cbn [mbind option_bind].
  assert (Hstep : set_masked_column c
            (map (fun x => bool_decide (x = t)) label) j (map rowf label) =
          Some (map (fun x => if decide (x = t) then <[j := 1]> (rowf x)
                              else rowf x) label)).
  { unfold set_masked_column.
    destruct (existsb _ _ && _) eqn:Hex.
    - apply andb_true_iff in Hex as [Hex Hc]. apply Nat.leb_le in Hc.
      apply existsb_exists in Hex as (b & Hb & ->).
      apply in_map_iff in Hb as (x & Hx & Hxin).
      apply bool_decide_eq_true in Hx as ->.
      assert ((j < c)%nat); [|lia].
      apply (Hin j t); [by left|by apply list_elem_of_In].
    - f_equal. rewrite zip_with_map_same. apply map_ext. intros x.
      by destruct (decide (x = t)) as [Hx|Hx];
        [rewrite bool_decide_eq_true_2|rewrite bool_decide_eq_false_2]. }
  rewrite Hstep. rewrite IH; [done|].
  intros j' t' Hin'. apply Hin. by right.
Qed.

Lemma one_hot_loop_None (label : list A) (c : nat) (ts : list (nat * A))
    (acc : option (list (list Z))) (j : nat) (t : A) :
  (j, t) ∈ ts -> t ∈ label -> (c <= j)%nat ->
  foldl (fun acc '(tag_idx, tag) =>
           one_hot ← acc;
           set_masked_column c (map (fun x => bool_decide (x = tag)) label)
             tag_idx one_hot)
    acc ts = None.
Proof.
  intros Hin Ht Hc.
  assert (Hnone : forall ts',
    foldl (fun acc '(tag_idx, tag) =>
             one_hot ← acc;
             set_masked_column c (map (fun x => bool_decide (x = tag)) label)
               tag_idx one_hot) None ts' = None).
  { induction ts' as [|[j' t'] ts' IH]; [done|]. exact IH. }
  revert acc. induction ts as [|[j' t'] ts IH]; intros acc.
  { by apply elem_of_nil in Hin. }
  cbn [foldl]. apply elem_of_cons in Hin as [[= <- <-]|Hin]; [|by apply IH].
  destruct acc as [m|]; [|apply Hnone]. cbn [mbind option_bind].
  unfold set_masked_column.
  replace (existsb _ _ && _) with true; [apply Hnone|].
  symmetry. apply andb_true_iff. split; [|by apply Nat.leb_le].
  apply existsb_exists. exists true. split; [|done].
  apply in_map_iff. exists t. split; [by apply bool_decide_eq_true|].
  by apply list_elem_of_In.
Qed.

(** With distinct tags, the loop sets one entry per row: the column of the
    position of the row's label among the tags. *)
Lemma one_hot_row (tags : list A) (x : A) (s : nat) (r : list Z) :
  NoDup tags ->
  foldl (fun r '(j, t) => if decide (x = t) then <[j := 1]> r else r) r
    (zip (seq s (length tags)) tags) =
  match index tags x with
  | Some k => <[(s + k)%nat := 1]> r
  | None => r
  end.
Proof.
  revert s r. induction tags as [|t ts IH]; intros s r Hnd; [done|].
  apply NoDup_cons in Hnd as [Hnotin Hnd].
  cbn [length seq zip zip_with foldl index]. rewrite IH by done.
  destruct (decide (x = t)) as [->|Hne].
  - rewrite decide_True by done.
    apply index_None in Hnotin as ->. by rewrite Nat.add_0_r.
  - rewrite decide_False by done.
    destruct (index ts x) as [k|]; [|done]. cbn. f_equal. lia.
Qed.

Lemma one_hot_vector_Some (dtype_is_int : bool) (label : list A)
    (class_n : option Z) :
  let tags := list_of_set label in
  let c := default (Z.of_nat (length tags)) class_n in
  Z.of_nat (length tags) <= c ->
  (one_hot_vector list_of_set dtype_is_int label class_n).2 =
  Some (map (fun x => match index tags x with
                      | Some k => <[k := 1]> (replicate (Z.to_nat c) 0)
                      | None => replicate (Z.to_nat c) 0
                      end) label, tags).
Proof.
  intros tags c Hc.
  destruct (tag2int_Some label) as (il & Htag & Hidx). fold tags in Htag, Hidx.
  assert (Hzeros : replicate (length label) (replicate (Z.to_nat c) 0) =
                   map (fun _ => replicate (Z.to_nat c) 0) label).
  { generalize (replicate (Z.to_nat c) 0). clear. intros v.
    induction label as [|x l IH]; [done|]. cbn. by rewrite IH. }
  assert (Hr : (one_hot_vector list_of_set dtype_is_int label class_n).2 =
    one_hot ← foldl (fun acc '(tag_idx, tag) =>
                 one_hot ← acc;
                 set_masked_column (Z.to_nat c)
                   (map (fun x => bool_decide (x = tag)) label)
                   tag_idx one_hot)
               (Some (replicate (length label) (replicate (Z.to_nat c) 0)))
               (zip (seq 0 (length tags)) tags);
    Some (one_hot, tags)).
  { unfold one_hot_vector. fold tags. rewrite Htag.
    destruct dtype_is_int; cbn; fold c;
      by destruct (Z.ltb_spec c 0) as [|Hc0]; [lia|]. }
  rewrite Hr, Hzeros, one_hot_loop_Some.
  2:{ intros j t Hin _. apply list_elem_of_lookup in Hin as [i Hi].
      apply lookup_zip_with_Some in Hi as (j' & t' & [= <- <-] & Hj & Ht).
      apply lookup_seq in Hj as [-> _]. apply lookup_lt_Some in Ht. lia. }
  cbn [mbind option_bind]. do 2 f_equal. apply map_ext. intros x.
  by rewrite one_hot_row by apply list_of_set_NoDup.
Qed.

(** X7: [one_hot_vector] raises exactly when [class_n] is given and smaller
    than the number of distinct labels.  Otherwise it returns the distinct
    labels and a matrix with one row per label position and [class_n]
    columns ([len(tags)] by default), row [i] being zero except for a 1 in
    the column where [tags] holds [label[i]]; this matrix is a one-hot
    label in the sense of [get_neighbourhood_count].  The two messages are
    printed exactly when the dtype is not integer. *)
Theorem one_hot_vector_spec (dtype_is_int : bool) (label : list A)
    (class_n : option Z) :
  let tags := list_of_set label in
  let c := default (Z.of_nat (length tags)) class_n in
  let r := one_hot_vector list_of_set dtype_is_int label class_n in
  r.1 = (if dtype_is_int then [] else [Dtype_message; Transfer_message]) /\
  (c < Z.of_nat (length tags) -> r.2 = None) /\
  (Z.of_nat (length tags) <= c ->
   exists one_hot,
     r.2 = Some (one_hot, tags) /\
     length one_hot = length label /\
     (forall i x, label !! i = Some x ->
        exists k, tags !! k = Some x /\
                  one_hot !! i =
                    Some (<[k := 1]> (replicate (Z.to_nat c) 0))) /\
     label_ok true (length label) (Z.to_nat c) (Matrix one_hot)).
Proof.
  intros tags c r.
  destruct (tag2int_Some label) as (il & Htag & Hidx). fold tags in Htag, Hidx.
  split_and!.
  - subst r. unfold one_hot_vector. by destruct dtype_is_int.
  - intros Hc.
    assert (Hr : r.2 =
      if c <? 0 then None
      else one_hot ← foldl (fun acc '(tag_idx, tag) =>
                       one_hot ← acc;
                       set_masked_column (Z.to_nat c)
                         (map (fun x => bool_decide (x = tag)) label)
                         tag_idx one_hot)
                     (Some (replicate (length label)
                              (replicate (Z.to_nat c) 0)))
                     (zip (seq 0 (length tags)) tags);
           Some (one_hot, tags)).
    { subst r. unfold one_hot_vector. fold tags. rewrite Htag.
      by destruct dtype_is_int. }
    rewrite Hr. destruct (Z.ltb_spec c 0) as [|Hc0]; [done|].
    assert (Hlt : (Z.to_nat c < length tags)%nat) by lia.
    apply lookup_lt_is_Some in Hlt as [t Ht].
    rewrite (one_hot_loop_None label _ _ _ (Z.to_nat c) t); [done| | |lia].
    + apply list_elem_of_lookup. exists (Z.to_nat c).
      apply lookup_zip_with_Some. exists (Z.to_nat c), t.
      split_and!; [done| |done]. apply lookup_seq. split; [done|].
      by eapply lookup_lt_Some.
    + apply list_of_set_elem. by eapply list_elem_of_lookup_2.
  - intros Hc. subst r.
    rewrite (one_hot_vector_Some dtype_is_int label class_n Hc).
    fold tags c. eexists. split; [reflexivity|].
    assert (Hrow : forall i x, label !! i = Some x ->
      exists k, tags !! k = Some x /\
        map (fun x => match index tags x with
                      | Some k => <[k := 1]> (replicate (Z.to_nat c) 0)
                      | None => replicate (Z.to_nat c) 0
                      end) label !! i =
        Some (<[k := 1]> (replicate (Z.to_nat c) 0))).
    { intros i x Hi.
      destruct (Forall2_lookup_l _ _ _ _ _ Hidx Hi) as (k & _ & Hk).
      exists k. split; [by apply index_lookup|].
      rewrite list_lookup_fmap_Some. exists x. split; [|done].
      by rewrite Hk. }
    split_and!; [by rewrite length_map|exact Hrow|].
    split; [by rewrite length_map|].
    apply Forall_forall. intros row Hrow'.
    apply list_elem_of_lookup in Hrow' as [i Hi].
    assert (Hlt : (i < length label)%nat).
    { apply lookup_lt_Some in Hi. by rewrite length_map in Hi. }
    apply lookup_lt_is_Some in Hlt as [x Hx].
    destruct (Hrow i x Hx) as (k & _ & Hrowi).
    rewrite Hrowi in Hi. injection Hi as <-.
    split; [by rewrite length_insert, length_replicate|].
    apply Forall_forall. intros e He.
    apply list_elem_of_lookup in He as [j Hj].
    destruct (decide (j = k)) as [->|Hne].
    + apply lookup_lt_Some in Hj as Hlt. rewrite length_insert in Hlt.
      rewrite list_lookup_insert_eq in Hj by done. right. congruence.
    + rewrite list_lookup_insert_ne in Hj by done.
      apply lookup_replicate in Hj as [-> _]. by left.
Qed.

Lemma one_hot_rows_index (tags label : list A) (int_label : list nat) :
  Forall2 (fun x k => index tags x = Some k) label int_label ->
  one_hot_rows (length tags) (Z.of_nat <$> int_label) =
  Some (map (fun x => match index tags x with
                      | Some k => <[k := 1]> (replicate (length tags) 0)
                      | None => replicate (length tags) 0
                      end) label).
Proof.
  intros Hidx. unfold one_hot_rows. apply mapM_Some.
  induction Hidx as [|x k label int_label Hk _ IH]; [constructor|].
  cbn. constructor; [|exact IH]. rewrite Hk.
  apply index_lookup, lookup_lt_Some in Hk.
  replace ((0 <=? Z.of_nat k) && (Z.of_nat k <? Z.of_nat (length tags)))
    with true by (symmetry; apply andb_true_iff; split;
                  [apply Z.leb_le|apply Z.ltb_lt]; lia).
  by rewrite Nat2Z.id.
Qed.

(** X8: the two label encodings give the same neighbourhood counts.  With
    the integer vector of [tag2int(label)] passed with
    [one_hot_label = False], [get_neighbourhood_count] builds the very
    matrix [one_hot_vector(label)] returns, so the call returns, and leaves
    in the store, what the call on that matrix with [one_hot_label = True]
    does (the matrix not being the adjacency array itself). *)
Theorem neighbourhood_count_label_forms (σ : gmap positive ndarray)
    (adjacency l1 l2 : positive) (adj one_hot : list (list Z))
    (label : list A) (int_label : list nat) (tags tags' : list A)
    (dtype_is_int exclude_self : bool) :
  tag2int list_of_set label = Some (int_label, tags) ->
  (one_hot_vector list_of_set dtype_is_int label None).2 =
    Some (one_hot, tags') ->
  σ !! adjacency = Some (Matrix adj) ->
  σ !! l1 = Some (Vector (Z.of_nat <$> int_label)) ->
  σ !! l2 = Some (Matrix one_hot) ->
  adjacency <> l2 ->
  tags' = tags /\
  get_neighbourhood_count adjacency l1 exclude_self false σ =
  get_neighbourhood_count adjacency l2 exclude_self true σ.
Proof.
  intros Htag Hone Hadj Hl1 Hl2 Hne.
  destruct (tag2int_Some label) as (il & Htag' & Hidx).
  rewrite Htag in Htag'. injection Htag' as <- ->.
  rewrite one_hot_vector_Some in Hone by (cbn; lia).
  cbn [default] in Hone. rewrite Nat2Z.id in Hone.
  injection Hone as <- <-. split; [done|].
  set (m := map _ label) in *.
  assert (Hrows : one_hot_rows (unique_n (Z.of_nat <$> int_label))
                    (Z.of_nat <$> int_label) = Some m).
  { rewrite (unique_n_range _ (length (list_of_set label)))
      by by apply tag2int_range.
    by apply one_hot_rows_index. }
  assert (Hlen : length int_label = length label)
    by (symmetry; by eapply Forall2_length).
  unfold get_neighbourhood_count. rewrite Hadj, Hl1, Hl2. cbn [shape0].
  rewrite length_fmap, Hlen. subst m. rewrite length_map.
  destruct (negb (length label =? length adj)%nat); [done|].
  rewrite Hrows. cbn [fmap option_fmap option_map].
  destruct exclude_self.
  - destruct (is_square adj); [|done].
    rewrite lookup_insert_eq, lookup_insert_ne, Hl2 by done. done.
  - by rewrite Hadj, Hl2.
Qed.
End label_encodings.

(** ** get_knearest_distance *)







Lemma lookup_StronglySorted {T} (R : T -> T -> Prop) (l : list T)
    (a b : nat) (x y : T) :
  StronglySorted R l -> (a < b)%nat ->
  l !! a = Some x -> l !! b = Some y -> R x y.
Proof.
  intros Hl. revert a b. induction Hl as [|u l _ IH Hall]; intros a b Hab Ha Hb.
  { done. }
  destruct b as [|b]; [lia|]. destruct a as [|a].
  - injection Ha as ->. cbn in Hb. rewrite Forall_forall in Hall.
    apply Hall. by eapply list_elem_of_lookup_2.
  - apply (IH a b); [lia|done..].
Qed.




Lemma knearest_distance_fold (coordinate : list (list Z)) (k : Z)
    (rows : list nat) (acc : list root) :
  foldl (fun acc i =>
    distance_list ← acc;
    let difference := difference_from coordinate i in
    euclidean_distance ← planar_distance difference;
    let sort_distance := np_sort euclidean_distance in
    d ← py_index sort_distance k;
    Some (distance_list ++ [d])) (Some acc) rows =
  (fun l => acc ++ l) <$> mapM (kth_distance coordinate k) rows.
Proof.
  revert acc. induction rows as [|i rows IH]; intros acc.
  - cbn. by rewrite app_nil_r.
  - cbn [foldl]. change (mapM ?f (i :: rows))
      with (y ← f i; l ← mapM f rows; mret (y :: l)).
    match goal with
    | |- foldl _ ?x _ = _ =>
        replace x with ((fun r => acc ++ [r]) <$> kth_distance coordinate k i)
    end.
    2:{ unfold kth_distance. cbn.
        destruct (planar_distance _) as [d|]; cbn; [|done].
        by destruct (py_index _ _). }
    destruct (kth_distance coordinate k i) as [r|]; cbn.
    + rewrite IH. destruct (mapM _ rows); cbn; [|done].
      by rewrite <- app_assoc.
    + clear. induction rows as [|j rows IH]; [done|]. exact IH.
Qed.

Lemma get_knearest_distance_mapM (coordinate : list (list Z)) (nearest_k : Z)
    (exclude_self : bool) :
  get_knearest_distance coordinate nearest_k exclude_self =
  mapM (kth_distance coordinate
          (if exclude_self then nearest_k + 1 else nearest_k))
    (seq 0 (length coordinate)).
Proof.
  unfold get_knearest_distance. rewrite knearest_distance_fold.
  by destruct (mapM _ _).
Qed.





(** ** KL_divergence *)

Section KL_divergence_facts.
Local Open Scope R_scope.

Lemma has_zero_spec (prob : list R) : has_zero prob = true <-> 0 ∈ prob.
Proof.
  unfold has_zero. rewrite existsb_exists. split.
  - intros (x & Hx & Hz). apply list_elem_of_In in Hx.
    by destruct (Req_dec_T x 0) as [->|].
  - intros Hin. exists 0. split; [by apply list_elem_of_In|].
    by destruct (Req_dec_T 0 0).
Qed.

Lemma Rsum_pos (l : list R) : Forall (fun x => 0 < x) l -> l <> [] -> 0 < Rsum l.
Proof.
  induction 1 as [|x l Hx Hl IH]; [done|]. intros _.
  change (Rsum (x :: l)) with (x + Rsum l).
  destruct l as [|y l]; [cbn; lra|]. specialize (IH ltac:(done)). lra.
Qed.

Lemma Rsum_scale (c : R) (l : list R) :
  Rsum (map (fun x => x / c) l) = Rsum l / c.
Proof.
  induction l as [|x l IH]; [cbn; unfold Rdiv; ring|].
  change (Rsum (map ?f (x :: l))) with (f x + Rsum (map f l)).
  change (Rsum (x :: l)) with (x + Rsum l). rewrite IH.
  unfold Rdiv. ring.
Qed.

(** What the code computes with, for an input without negative entries:
    positive numbers, and after the pseudo count a distribution. *)
Lemma effective_positive (pesudo : R) (prob : list R) :
  0 < pesudo -> Forall (fun x => 0 <= x) prob ->
  let prob' := if has_zero prob then add_pesudo pesudo prob else prob in
  Forall (fun x => 0 < x) prob' /\ length prob' = length prob /\
  (has_zero prob = true -> Rsum prob' = 1).
Proof.
  intros Heps Hnn. destruct (has_zero prob) eqn:Hz; cbn zeta.
  - assert (Hne : prob <> []).
    { apply has_zero_spec in Hz. intros ->. by apply elem_of_nil in Hz. }
    unfold add_pesudo. set (shifted := map (fun x => x + pesudo) prob).
    assert (Hpos : Forall (fun x => 0 < x) shifted).
    { subst shifted. apply Forall_map. eapply Forall_impl; [exact Hnn|].
      intros x Hx. cbn in *. lra. }
    assert (Hsum : 0 < Rsum shifted).
    { apply Rsum_pos; [done|]. subst shifted. by destruct prob. }
    split_and!.
    + apply Forall_map. eapply Forall_impl; [exact Hpos|].
      intros x Hx. cbn. by apply Rdiv_lt_0_compat.
    + subst shifted. by rewrite !length_map.
    + intros _. rewrite Rsum_scale. field. lra.
  - split_and!; [|done|done].
    apply Forall_forall. intros x Hx.
    assert (x <> 0).
    { intros ->. apply has_zero_spec in Hx. congruence. }
    rewrite Forall_forall in Hnn. specialize (Hnn x Hx). cbn in Hnn. lra.
Qed.

Lemma ln_le_sub_1 (t : R) : 0 < t -> ln t <= t - 1.
Proof.
  intros Ht. pose proof (exp_ineq1_le (ln t)) as H.
  rewrite exp_ln in H by done. lra.
Qed.

Lemma kl_term_bound (x y : R) : 0 < x -> 0 < y -> x - y <= x * ln (x / y).
Proof.
  intros Hx Hy.
  assert (Hln : ln (x / y) = - ln (y / x)).
  { unfold Rdiv. rewrite !ln_mult, !ln_Rinv; try done; [ring|..];
      by apply Rinv_0_lt_compat. }
  pose proof (ln_le_sub_1 (y / x) (Rdiv_lt_0_compat _ _ Hy Hx)) as Hle.
  rewrite Hln.
  assert (Heq : x - y = x * - (y / x - 1)) by (field; lra).
  rewrite Heq. apply Rmult_le_compat_l; lra.
Qed.

Lemma kl_sum_bound (p q : list R) :
  Forall (fun x => 0 < x) p -> Forall (fun x => 0 < x) q ->
  length p = length q ->
  Rsum p - Rsum q <= Rsum (zip_with (fun x y => x * ln (x / y)) p q).
Proof.
  intros Hp. revert q. induction Hp as [|x p Hx Hp IH]; intros q Hq Hlen.
  - destruct q; [cbn; lra|done].
  - destruct q as [|y q]; [done|]. apply Forall_cons in Hq as [Hy Hq].
    injection Hlen as Hlen.
    change (Rsum (x :: p)) with (x + Rsum p).
    change (Rsum (y :: q)) with (y + Rsum q).
    change (Rsum (zip_with ?f (x :: p) (y :: q)))
      with (f x y + Rsum (zip_with f p q)).
    pose proof (kl_term_bound x y Hx Hy). specialize (IH q Hq Hlen).
    cbn beta. lra.
Qed.

(** X11: the divergence of a distribution from itself is 0, with or
    without zero entries (no entry negative, a positive pseudo count). *)
Theorem KL_divergence_self (prob : list R) (pesudo : R) :
  0 < pesudo -> Forall (fun x => 0 <= x) prob ->
  (KL_divergence prob prob pesudo).2 = 0.
Proof.
  intros Heps Hnn. unfold KL_divergence.
  destruct (effective_positive pesudo prob Heps Hnn) as (Hpos & _ & _).
  set (prob' := if has_zero prob then add_pesudo pesudo prob else prob) in *.
  assert (Heq : (KL_divergence prob prob pesudo).2 =
                Rsum (zip_with (fun x y => x * ln (x / y)) prob' prob')).
  { unfold KL_divergence. subst prob'. by destruct (has_zero prob). }
  fold (KL_divergence prob prob pesudo). rewrite Heq. clear Heq.
  induction Hpos as [|x l Hx _ IH]; [done|].
  change (Rsum (zip_with ?f (x :: l) (x :: l)))
    with (f x x + Rsum (zip_with f l l)).
  rewrite IH. cbn beta.
  unfold Rdiv. rewrite Rinv_r by lra. rewrite ln_1. ring.
Qed.

(** X12: the divergence of two distributions of the same length is never
    negative (no entry negative, each summing to 1, a positive pseudo
    count), whether or not the pseudo count is applied to either. *)
Theorem KL_divergence_nonneg (prob1 prob2 : list R) (pesudo : R) :
  0 < pesudo ->
  Forall (fun x => 0 <= x) prob1 -> Forall (fun x => 0 <= x) prob2 ->
  length prob1 = length prob2 ->
  Rsum prob1 = 1 -> Rsum prob2 = 1 ->
  0 <= (KL_divergence prob1 prob2 pesudo).2.
Proof.
  intros Heps Hnn1 Hnn2 Hlen Hsum1 Hsum2.
  destruct (effective_positive pesudo prob1 Heps Hnn1) as (Hpos1 & Hlen1 & Hs1).
  destruct (effective_positive pesudo prob2 Heps Hnn2) as (Hpos2 & Hlen2 & Hs2).
  set (p := if has_zero prob1 then add_pesudo pesudo prob1 else prob1) in *.
  set (q := if has_zero prob2 then add_pesudo pesudo prob2 else prob2) in *.
  assert (Heq : (KL_divergence prob1 prob2 pesudo).2 =
                Rsum (zip_with (fun x y => x * ln (x / y)) p q)).
  { unfold KL_divergence. subst p q.
    by destruct (has_zero prob1), (has_zero prob2). }
  rewrite Heq.
  assert (Hp : Rsum p = 1).
  { destruct (has_zero prob1) eqn:Hz; [by apply Hs1|]. by subst p. }
  assert (Hq : Rsum q = 1).
  { destruct (has_zero prob2) eqn:Hz; [by apply Hs2|]. by subst q. }
  pose proof (kl_sum_bound p q Hpos1 Hpos2 ltac:(congruence)). lra.
Qed.
End KL_divergence_facts.

(** ** get_adjacency: the graph as a whole *)

Lemma euclidean_sym (p q : list Z) : euclidean p q = euclidean q p.
Proof.
  unfold euclidean. f_equal. f_equal.
  revert q. induction p as [|a p IH]; intros [|b q]; cbn; try done.
  rewrite IH. f_equal. ring.
Qed.

Lemma euclidean_self (p : list Z) : euclidean p p = 0%R.
Proof.
  unfold euclidean. replace (Rsum _) with 0%R; [apply sqrt_0|].
  induction p as [|a p IH]; [done|].
  change (0 = (IZR a - IZR a) * (IZR a - IZR a) +
    Rsum (zip_with (fun a b => (IZR b - IZR a) * (IZR b - IZR a)) p p))%R.
  rewrite <- IH. ring.
Qed.

Lemma euclidean_nonneg (p q : list Z) : (0 <= euclidean p q)%R.
Proof. apply sqrt_pos. Qed.

(** The entries of the matrix [get_adjacency] returns. *)
Lemma get_adjacency_entry (coordinate : list (list Z)) (threshold_distance : Z)
    (exclude_self : bool) (i j : nat) :
  dok_get (get_adjacency coordinate threshold_distance exclude_self) i j = true <->
  exists ci cj,
    coordinate !! i = Some ci /\ coordinate !! j = Some cj /\
    (exclude_self = true -> i <> j) /\
    (euclidean ci cj < IZR threshold_distance)%R.
Proof.
  set (cols := fun i : nat =>
    np_where
      (let a := map (fun d => root_ltb d threshold_distance)
                  (map (fun r => Sqrt (foldr Z.add 0 r))
                     (map (map (fun d => d * d)) (difference_from coordinate i))) in
       if exclude_self then <[i := false]> a else a)).
  assert (Hfold :
    get_adjacency coordinate threshold_distance exclude_self =
    foldl (fun a r => foldl (fun adj col => dok_set r col true adj) a (cols r))
      (dok_new (length coordinate) (length coordinate))
      (seq 0 (length coordinate))) by reflexivity.
  rewrite Hfold, dok_get_fill_rows, elem_of_seq.
  unfold dok_get at 1, dok_new. cbn [keys]. rewrite lookup_empty. cbn [default].
  destruct (coordinate !! i) as [ci|] eqn:Hi.
  2:{ apply lookup_ge_None in Hi. split; [intros [?|[? _]]; [done|lia]|].
      by intros (? & ? & ? & _). }
  pose proof (lookup_lt_Some _ _ _ Hi) as Hilt.
  assert (Hcol : j ∈ cols i <->
    exists cj, coordinate !! j = Some cj /\
      (exclude_self = true -> i <> j) /\
      (euclidean ci cj < IZR threshold_distance)%R).
  { unfold cols. rewrite elem_of_np_where.
    unfold difference_from. rewrite Hi. cbn [default].
    set (a := map _ _).
    assert (Ha : a !! j = (fun cj => root_ltb
               (Sqrt (foldr Z.add 0 (map (fun d => d * d) (zip_with Z.sub cj ci))))
               threshold_distance) <$> coordinate !! j).
    { unfold a. rewrite !map_map. apply list_lookup_fmap. }
    assert (Hent : a !! j = Some true <->
      exists cj, coordinate !! j = Some cj /\
                 (euclidean ci cj < IZR threshold_distance)%R).
    { rewrite Ha. destruct (coordinate !! j) as [cj|];
        cbn [fmap option_fmap option_map].
      - split.
        + intros [= Hlt]. exists cj. split; [done|].
          apply root_ltb_spec in Hlt. by rewrite root_val_sum_squares in Hlt.
        + intros (cj' & [= <-] & Hd). f_equal. apply root_ltb_spec.
          by rewrite root_val_sum_squares.
      - split; [done|]. by intros (? & ? & _). }
    cbv zeta. destruct exclude_self.
    - destruct (decide (i = j)) as [->|Hne].
      + split; [|intros (? & _ & Hne & _); by destruct Hne].
        intros Hl. assert (Hlt := lookup_lt_Some _ _ _ Hl).
        rewrite list_lookup_insert_eq in Hl by (by rewrite length_insert in Hlt).
        done.
      + rewrite list_lookup_insert_ne by done. rewrite Hent.
        split; [intros (cj & ? & ?)|intros (cj & ? & _ & ?)]; exists cj;
          by split_and!.
    - rewrite Hent.
      split; [intros (cj & ? & ?)|intros (cj & ? & _ & ?)]; exists cj;
        by split_and!. }
  rewrite Hcol. split.
  - intros [?|[_ (cj & Hj & Hne & Hd)]]; [done|]. by exists ci, cj.
  - intros (ci' & cj & [= <-] & Hj & Hne & Hd). right.
    split; [lia|]. by exists cj.
Qed.

Lemma get_adjacency_keys (coordinate : list (list Z)) (threshold_distance : Z)
    (exclude_self : bool) (key : nat * nat) (v : bool) :
  keys (get_adjacency coordinate threshold_distance exclude_self) !! key = Some v ->
  v = true.
Proof.
  unfold get_adjacency.
  set (step := fun adjacency i => foldl _ adjacency _).
  assert (Hinv : forall rows m,
    (forall v', keys m !! key = Some v' -> v' = true) ->
    forall v', keys (foldl step m rows) !! key = Some v' -> v' = true).
  { induction rows as [|r rows IH]; intros m Hm; [exact Hm|].
    cbn [foldl]. apply IH. unfold step.
    match goal with
    | |- context [foldl _ m ?l] => generalize l
    end.
    intros cols. revert m Hm.
    induction cols as [|c cols IHc]; intros m Hm; [exact Hm|].
    cbn [foldl]. apply IHc. intros v'. unfold dok_set. cbn [keys].
    destruct (decide ((r, c) = key)) as [<-|Hne].
    - rewrite lookup_insert_eq. congruence.
    - rewrite lookup_insert_ne by done. apply Hm. }
  apply Hinv. intros v'. cbn. by rewrite lookup_empty.
Qed.

(** X13: the matrix of [get_adjacency] is the adjacency of an undirected
    graph on the samples: it is symmetric, it has no entry outside
    [sample_n] rows and columns, and the dictionary holds [True] values
    only, one key per edge. *)
Theorem get_adjacency_symmetric (coordinate : list (list Z))
    (threshold_distance : Z) (exclude_self : bool) :
  let adjacency := get_adjacency coordinate threshold_distance exclude_self in
  (forall i j, dok_get adjacency i j = dok_get adjacency j i) /\
  (forall i j, dok_get adjacency i j = true ->
     (i < length coordinate)%nat /\ (j < length coordinate)%nat) /\
  (forall i j v, keys adjacency !! (i, j) = Some v ->
     v = true /\ dok_get adjacency i j = true).
Proof.
  cbv zeta. split_and!.
  - intros i j. apply eq_true_iff_eq. rewrite !get_adjacency_entry.
    split; intros (ci & cj & Hi & Hj & Hne & Hd); exists cj, ci;
      (split_and!; [done|done|intros He ->; by apply (Hne He)|]);
      by rewrite euclidean_sym.
  - intros i j Hset. apply get_adjacency_entry in Hset
      as (ci & cj & Hi & Hj & _). split; by eapply lookup_lt_Some.
  - intros i j v Hv. pose proof (get_adjacency_keys _ _ _ _ _ Hv) as ->.
    split; [done|]. unfold dok_get. by rewrite Hv.
Qed.

(** X14: the graph of [get_adjacency] grows with the threshold: an edge
    at one threshold is an edge at every larger one.  A threshold of 0 or
    below gives the empty graph, and a positive threshold without
    [exclude_self] makes every sample its own neighbour.  The flag
    [exclude_self] changes the diagonal and nothing else. *)
Theorem get_adjacency_monotone (coordinate : list (list Z))
    (threshold_distance : Z) (exclude_self : bool) :
  (forall t' i j, threshold_distance <= t' ->
     dok_get (get_adjacency coordinate threshold_distance exclude_self) i j = true ->
     dok_get (get_adjacency coordinate t' exclude_self) i j = true) /\
  (threshold_distance <= 0 ->
   forall i j,
     dok_get (get_adjacency coordinate threshold_distance exclude_self) i j = false) /\
  (0 < threshold_distance ->
   forall i, (i < length coordinate)%nat ->
     dok_get (get_adjacency coordinate threshold_distance false) i i = true) /\
  (forall i j, i <> j ->
     dok_get (get_adjacency coordinate threshold_distance true) i j =
     dok_get (get_adjacency coordinate threshold_distance false) i j).
Proof.
  split_and!.
  - intros t' i j Ht. rewrite !get_adjacency_entry.
    intros (ci & cj & Hi & Hj & Hne & Hd). exists ci, cj.
    split_and!; try done. apply IZR_le in Ht. lra.
  - intros Ht i j. apply not_true_is_false. rewrite get_adjacency_entry.
    intros (ci & cj & _ & _ & _ & Hd).
    pose proof (euclidean_nonneg ci cj). apply IZR_le in Ht. lra.
  - intros Ht i Hi. apply get_adjacency_entry.
    apply lookup_lt_is_Some in Hi as [ci Hi]. exists ci, ci.
    split_and!; try done. rewrite euclidean_self. by apply IZR_lt.
  - intros i j Hne. apply eq_true_iff_eq. rewrite !get_adjacency_entry.
    split; intros (ci & cj & Hi & Hj & _ & Hd); exists ci, cj; by split_and!.
Qed.

(** ** get_adjacency_knearest: what raises, and the rows for any [nearest_k] *)

Lemma planar_distance_Some (coordinate : list (list Z)) (i : nat)
    (d : list root) :
  planar_distance (difference_from coordinate i) = Some d ->
  Forall (fun c => (2 <= length c)%nat) coordinate.
Proof.
  unfold planar_distance, difference_from. intros Hd.
  assert (Hsome : is_Some (mapM (fun d => match d with
                 | d0 :: d1 :: _ => Some (Sqrt (d0 * d0 + d1 * d1))
                 | _ => None
                 end) (map (fun c => zip_with Z.sub c
                   (default [] (coordinate !! i))) coordinate)))
    by by rewrite Hd.
  apply mapM_is_Some in Hsome.
  change (map ?f ?l) with (f <$> l) in Hsome. rewrite Forall_fmap in Hsome.
  eapply Forall_impl; [exact Hsome|]. intros c Hc. cbn in Hc.
  destruct c as [|c0 [|c1 c]]; cbn in *;
    [by destruct Hc|destruct (default [] _) as [|? [|? ?]]; by destruct Hc|lia].
Qed.

(** X15: [get_adjacency_knearest] raises exactly when some point has fewer
    than two coordinates; every [nearest_k], negative or beyond the number
    of points, is accepted.  [get_knearest_distance] raises on such points
    too. *)
Theorem knearest_raises_iff (argsort : list root -> list nat)
    (coordinate : list (list Z)) (nearest_k : Z) (exclude_self : bool) :
  (is_Some (get_adjacency_knearest argsort coordinate nearest_k exclude_self) <->
   Forall (fun c => (2 <= length c)%nat) coordinate) /\
  (coordinate <> [] ->
   is_Some (get_knearest_distance coordinate nearest_k exclude_self) ->
   Forall (fun c => (2 <= length c)%nat) coordinate).
Proof.
  set (k := if exclude_self then nearest_k + 1 else nearest_k).
  split; [split|].
  - intros [adjacency Hadj].
    destruct (planar_distance (difference_from coordinate 0)) as [d|] eqn:Hd.
    { by eapply planar_distance_Some. }
    destruct (length coordinate) as [|n'] eqn:Hlen.
    { destruct coordinate; [constructor|done]. }
    assert (Hfold :
      get_adjacency_knearest argsort coordinate nearest_k exclude_self =
      foldl (knearest_step argsort coordinate k exclude_self)
        (knearest_step argsort coordinate k exclude_self
           (Some (dok_new (length coordinate) (length coordinate))) 0)
        (seq 1 n')).
    { unfold get_adjacency_knearest. rewrite Hlen. reflexivity. }
    assert (Hstep : knearest_step argsort coordinate k exclude_self
              (Some (dok_new (length coordinate) (length coordinate))) 0 = None).
    { unfold knearest_step. cbn [mbind option_bind]. by rewrite Hd. }
    by rewrite Hfold, Hstep, knearest_step_None in Hadj.
  - intros Hcols.
    destruct (knearest_entries argsort coordinate nearest_k exclude_self Hcols)
      as (adjacency & -> & _). done.
  - intros Hne [dl Hdl]. rewrite get_knearest_distance_mapM in Hdl.
    destruct (length coordinate) as [|n'] eqn:Hlen; [by destruct coordinate|].
    apply mapM_Some in Hdl. cbn [seq] in Hdl.
    apply Forall2_cons_inv_l in Hdl as (r & dl' & Hr & _ & _).
    unfold kth_distance in Hr.
    destruct (planar_distance (difference_from coordinate 0)) as [d|] eqn:Hd;
      [|done].
    by eapply planar_distance_Some.
Qed.


(** ** get_neighbourhood_count: failed and repeated calls *)

Lemma length_zero_diagonal (m : list (list Z)) :
  length (zero_diagonal m) = length m.
Proof. unfold zero_diagonal. apply length_imap. Qed.

Lemma zero_diagonal_rows (k : nat) (m : list (list Z)) :
  forallb (fun r => Nat.eqb (length r) k) (zero_diagonal m) =
  forallb (fun r => Nat.eqb (length r) k) m.
Proof.
  unfold zero_diagonal.
  assert (Hgen : forall f : nat -> list Z -> list Z,
    (forall i r, length (f i r) = length r) ->
    forallb (fun r => Nat.eqb (length r) k) (imap f m) =
    forallb (fun r => Nat.eqb (length r) k) m).
  { induction m as [|r m IH]; intros f Hf; [done|]. cbn.
    rewrite Hf, IH; [done|]. intros i r'. apply Hf. }
  apply Hgen. intros i r. apply length_insert.
Qed.

Lemma is_square_zero_diagonal (m : list (list Z)) :
  is_square (zero_diagonal m) = is_square m.
Proof. unfold is_square. by rewrite zero_diagonal_rows, length_zero_diagonal. Qed.

Lemma zero_diagonal_idemp (m : list (list Z)) :
  zero_diagonal (zero_diagonal m) = zero_diagonal m.
Proof.
  apply list_eq. intros i. unfold zero_diagonal. rewrite !list_lookup_imap.
  destruct (m !! i) as [r|]; [|done]. cbn. f_equal.
  apply list_insert_insert_eq.
Qed.




(** X18: the clearing of the diagonal stays.  After a call with
    [exclude_self = True] that returned, every further call on the same
    arrays returns the same counts and leaves the store as it is, with
    [exclude_self = False] too: the samples are no longer counted among
    their own neighbours even when the caller asks for it. *)
Theorem neighbourhood_count_repeat (σ σ1 : gmap positive ndarray)
    (adjacency label : positive) (one_hot_label : bool) (nb_count : ndarray) :
  get_neighbourhood_count adjacency label true one_hot_label σ =
    (σ1, Some nb_count) ->
  forall exclude_self,
    get_neighbourhood_count adjacency label exclude_self one_hot_label σ1 =
      (σ1, Some nb_count).
Proof.
  unfold get_neighbourhood_count at 1.
  destruct (σ !! adjacency) as [[adj|?]|] eqn:Ha; [|done..].
  destruct (σ !! label) as [lab|] eqn:Hl; [|done].
  destruct (Nat.eqb_spec (shape0 lab) (length adj)) as [Hshape|];
    cbn [negb]; [|done].
  destruct (if one_hot_label then _ else _) as [one_hot|] eqn:Hone; [|done].
  destruct (is_square adj) eqn:Hsq; [|done].
  intros [= <- Hres] exclude_self.
  set (σ1 := <[adjacency := Matrix (zero_diagonal adj)]> σ) in *.
  assert (Ha1 : σ1 !! adjacency = Some (Matrix (zero_diagonal adj)))
    by apply lookup_insert_eq.
  assert (Hl1 : exists lab1, σ1 !! label = Some lab1 /\
    shape0 lab1 = length adj /\
    (if one_hot_label then Some (inl label)
     else match lab1 with
          | Vector v =>
              (fun m => inr (Matrix m)) <$> one_hot_rows (unique_n v) v
          | Matrix _ => None
          end) = Some one_hot).
  { destruct (decide (adjacency = label)) as [<-|Hne].
    - exists (Matrix (zero_diagonal adj)). split; [done|].
      split; [apply length_zero_diagonal|].
      assert (lab = Matrix adj) as -> by congruence.
      by destruct one_hot_label.
    - exists lab. subst σ1. by rewrite lookup_insert_ne. }
  destruct Hl1 as (lab1 & Hl1 & Hshape1 & Hone1).
  unfold get_neighbourhood_count. rewrite Ha1, Hl1, Hshape1.
  rewrite length_zero_diagonal, Nat.eqb_refl. cbn [negb]. rewrite Hone1.
  assert (Hσ2 : <[adjacency := Matrix (zero_diagonal (zero_diagonal adj))]> σ1
                = σ1).
  { subst σ1. by rewrite zero_diagonal_idemp, insert_insert_eq. }
  destruct exclude_self.
  - rewrite is_square_zero_diagonal, Hsq, Hσ2. by rewrite <- Hres.
  - by rewrite <- Hres.
Qed.

(** ** get_neighbourhood_count: the counts of a row add up *)

Lemma length_dot_row (r : list Z) (b : list (list Z)) (k : nat) :
  Forall (fun br => length br = k) b ->
  length (foldr (zip_with Z.add) (replicate k 0)
            (zip_with (fun c brow => map (Z.mul c) brow) r b)) = k.
Proof.
  intros Hb. revert r. induction Hb as [|br b Hbr _ IH]; intros [|c r]; cbn;
    try by rewrite length_replicate.
  rewrite length_zip_with, length_map, IH. lia.
Qed.

Lemma sum_indicator (c k : nat) :
  (c < k)%nat ->
  foldr Z.add 0 (map (fun t => if Nat.eqb c t then 1 else 0) (seq 0 k)) = 1.
Proof.
  intros Hc.
  assert (Hgen : forall s len, (s <= c < s + len)%nat ->
    foldr Z.add 0 (map (fun t => if Nat.eqb c t then 1 else 0) (seq s len)) = 1).
  { intros s len. revert s. induction len as [|len IH]; intros s Hs; [lia|].
    cbn. destruct (Nat.eqb_spec c s) as [->|Hne].
    - assert (Hzero : forall s' len', (s < s')%nat ->
        foldr Z.add 0
          (map (fun t => if Nat.eqb s t then 1 else 0) (seq s' len')) = 0).
      { intros s' len'. revert s'. induction len' as [|len' IH']; intros s' Hs';
          [done|]. cbn. destruct (Nat.eqb_spec s s'); [lia|].
        rewrite IH' by lia. done. }
      rewrite Hzero by lia. done.
    - rewrite IH by lia. done. }
  apply Hgen. lia.
Qed.

Lemma sum_zero (l : list nat) :
  foldr Z.add 0 (map (fun _ => 0) l) = 0.
Proof. induction l as [|t l IH]; [done|]. cbn. by rewrite IH. Qed.

Lemma sum_add (f g : nat -> Z) (l : list nat) :
  foldr Z.add 0 (map (fun t => f t + g t) l) =
  foldr Z.add 0 (map f l) + foldr Z.add 0 (map g l).
Proof. induction l as [|t l IH]; [done|]. cbn. rewrite IH. lia. Qed.

(** Counting by class and adding up is counting. *)
Lemma sum_classes (P : nat -> bool) (class : nat -> nat) (k : nat)
    (l : list nat) :
  (forall j, j ∈ l -> P j = true -> (class j < k)%nat) ->
  foldr Z.add 0
    (map (fun t => Z.of_nat (length (filter
            (fun j => P j && Nat.eqb (class j) t = true) l))) (seq 0 k)) =
  Z.of_nat (length (filter (fun j => P j = true) l)).
Proof.
  induction l as [|j l IH]; intros Hclass.
  - cbn. apply sum_zero.
  - rewrite (map_ext _ (fun t =>
      (if P j && Nat.eqb (class j) t then 1 else 0) +
      Z.of_nat (length (filter
        (fun j => P j && Nat.eqb (class j) t = true) l)))).
    2:{ intros t. rewrite filter_cons.
        destruct (P j && _) eqn:Hp.
        - rewrite decide_True by done. cbn [length]. lia.
        - rewrite decide_False by (by rewrite not_true_iff_false). lia. }
    rewrite sum_add, IH.
    2:{ intros j' Hj'. apply Hclass, elem_of_cons. by right. }
    rewrite filter_cons. destruct (P j) eqn:Hp.
    + rewrite decide_True by done. cbn [andb length].
      rewrite sum_indicator; [lia|]. apply Hclass; [by left|done].
    + rewrite decide_False by done. cbn [andb]. rewrite sum_zero. lia.
Qed.

(** X19: with integer labels, the counts of a row add up to the number of
    neighbours of the sample: every adjacent sample is counted under
    exactly one label (the sample itself left out under [exclude_self]). *)
Theorem neighbourhood_count_row_sums (σ : gmap positive ndarray)
    (adjacency label : positive) (adj : list (list Z)) (v : list Z)
    (n m : nat) (exclude_self : bool) :
  σ !! adjacency = Some (Matrix adj) -> σ !! label = Some (Vector v) ->
  is_01 n n adj -> label_ok false n m (Vector v) ->
  exists nb_count,
    (get_neighbourhood_count adjacency label exclude_self false σ).2 =
      Some (Matrix nb_count) /\
    forall i, (i < n)%nat ->
      exists row,
        nb_count !! i = Some row /\ length row = m /\
        foldr Z.add 0 row =
        Z.of_nat (length (filter
          (fun j => bool_decide (entry adj i j = Some 1) &&
                    (negb exclude_self || negb (Nat.eqb j i)) = true)
          (seq 0 n))).
Proof.
  intros Ha Hl Hadj Hlab.
  pose proof (is_01_is_square _ _ Hadj) as Hsq.
  assert (Hn : length adj = n) by apply Hadj.
  destruct Hlab as (Hvn & -> & Hv).
  destruct (one_hot_rows_spec _ _ Hv) as (b & Hb & Hb01 & Hbe).
  rewrite Hvn in Hb01.
  set (a' := if exclude_self then zero_diagonal adj else adj).
  assert (Ha' : is_01 n n a').
  { subst a'. destruct exclude_self; [by apply is_01_zero_diagonal|done]. }
  destruct (dot_matrix_count a' b n _ Ha' Hb01) as (nb & Hdot & Hnb & Hcount).
  exists nb. split.
  { unfold get_neighbourhood_count. rewrite Ha, Hl. cbn [shape0].
    rewrite Hvn, Hn, Nat.eqb_refl. cbn [negb]. rewrite Hb.
    cbn [fmap option_fmap option_map].
    destruct exclude_self; cbn [snd]; subst a'.
    - rewrite Hsq. cbn [snd]. rewrite lookup_insert_eq. cbn. by rewrite Hdot.
    - rewrite Ha. cbn. by rewrite Hdot. }
  intros i Hi.
  destruct (lookup_lt_is_Some_2 nb i) as [row Hrow]; [lia|].
  exists row. split; [done|].
  assert (Hlen : length row = unique_n v).
  { unfold dot_matrix in Hdot. destruct (forallb _ a'); [|done].
    injection Hdot as <-. change (map ?f ?l) with (f <$> l) in Hrow.
    apply list_lookup_fmap_Some in Hrow as (r & -> & Hr).
    destruct Hb01 as [Hbn Hbrows].
    assert (Hcols : length (default [] (head b)) = unique_n v).
    { destruct b as [|b0 b]; [cbn in Hbn; lia|].
      apply Forall_cons in Hbrows as [[Hb0 _] _]. done. }
    rewrite Hcols. apply length_dot_row.
    eapply Forall_impl; [exact Hbrows|]. by intros br [? _]. }
  split; [done|].
  assert (Hrow_eq : row =
    map (fun t => Z.of_nat (length (filter
      (fun j => (bool_decide (entry adj i j = Some 1) &&
                 (negb exclude_self || negb (Nat.eqb j i))) &&
                Nat.eqb (Z.to_nat (default 0 (v !! j))) t = true)
      (seq 0 n)))) (seq 0 (unique_n v))).
  { apply list_eq. intros t. change (map ?f ?l) with (f <$> l).
    rewrite list_lookup_fmap.
    destruct (decide (t < unique_n v)%nat) as [Ht|Ht].
    - rewrite lookup_seq_lt by done. cbn.
      assert (Hrt : row !! t = entry nb i t)
        by (unfold entry; by rewrite Hrow).
      rewrite Hrt, (Hcount i t Hi Ht).
      do 3 f_equal. apply filter_ext_bool. intros j Hj.
      apply elem_of_seq in Hj.
      assert (Hbj : bool_decide (entry b j t = Some 1) =
                    Nat.eqb (Z.to_nat (default 0 (v !! j))) t).
      { apply eq_true_iff_eq.
        rewrite bool_decide_eq_true, (Hbe j t Ht), Nat.eqb_eq.
        destruct (lookup_lt_is_Some_2 v j) as [z Hz]; [lia|].
        rewrite Hz. cbn. rewrite Forall_forall in Hv.
        specialize (Hv z (list_elem_of_lookup_2 _ _ _ Hz)). cbn in Hv.
        split; [intros [= ->]; lia|intros <-; f_equal; lia]. }
      rewrite Hbj. subst a'. destruct exclude_self; cbn [negb orb].
      + rewrite entry_zero_diagonal. destruct (Nat.eqb_spec j i) as [->|Hji].
        * destruct (entry adj i i); cbn; rewrite ?decide_True by done;
            rewrite ?bool_decide_eq_false_2 by done;
            by rewrite ?andb_false_r.
        * destruct (entry adj i j); cbn; rewrite ?decide_False by done;
            by rewrite ?andb_true_r.
      + by rewrite andb_true_r.
    - rewrite lookup_seq_ge by lia. apply lookup_ge_None. lia. }
  rewrite Hrow_eq.
  rewrite (sum_classes
    (fun j => bool_decide (entry adj i j = Some 1) &&
              (negb exclude_self || negb (Nat.eqb j i)))
    (fun j => Z.to_nat (default 0 (v !! j)))); [done|].
  intros j Hj _. apply elem_of_seq in Hj.
  destruct (lookup_lt_is_Some_2 v j) as [z Hz]; [lia|].
  rewrite Hz. cbn. rewrite Forall_forall in Hv.
  specialize (Hv z (list_elem_of_lookup_2 _ _ _ Hz)). cbn in Hv. lia.
Qed.

(** ** pca_reduce: unit variance *)

Section pca_reduce_variance.
Local Open Scope R_scope.











Lemma sq_nonneg (x : R) : 0 <= x * x.
Proof. apply Rle_0_sqr. Qed.


Lemma Rabs_sq (x : R) : Rabs x * Rabs x = x * x.
Proof. rewrite <- Rabs_mult. apply Rabs_right, Rle_ge, sq_nonneg. Qed.

End pca_reduce_variance.

(** ** save_smfish *)

Section save_smfish_facts.
Local Open Scope R_scope.
Context {Gene : Type}.

Lemma masked_map {T U} (p : T -> bool) (g : T -> U) (X : list T) :
  masked (map p X) (map g X) = map g (filter (fun r => p r = true) X).
Proof.
  unfold masked. induction X as [|r X IH]; [done|].
  cbn [map zip zip_with]. rewrite !filter_cons. cbn [fst].
  destruct (p r).
  - rewrite !decide_True by done. cbn. by rewrite <- IH.
  - rewrite !decide_False by done. exact IH.
Qed.



Lemma std1_row_std (X : list (list R)) : std1 X = map row_std X.
Proof.
  unfold std1, row_std, row_mean. apply map_ext. intros r. cbv zeta.
  rewrite (map_ext _ (fun v => (v - Rsum r / INR (length r)) *
                               (v - Rsum r / INR (length r)))); [done|].
  intros v. apply Rabs_sq.
Qed.

(** The rows of the expression file before they are numbered. *)
Lemma smfish_rows (X : list (list R)) :
  zip_with (fun r s => map (fun v => v / s) r)
    (masked (map (fun s => if Req_dec_T s 0 then false else true) (std1 X))
       (zip_with (fun r m => map (fun v => v - m) r) X (mean1 X)))
    (masked (map (fun s => if Req_dec_T s 0 then false else true) (std1 X))
       (std1 X)) =
  map standard_row (filter (fun r => varies r = true) X).
Proof.
  rewrite std1_row_std. unfold mean1.
  rewrite <- (map_id X) at 2. rewrite zip_with_map_same.
  rewrite map_map.
  rewrite (masked_map varies (fun r => map (fun v => v - Rsum r / INR (length r)) r)).
  rewrite (masked_map varies row_std).
  rewrite zip_with_map_same. apply map_ext. intros r.
  unfold standard_row, row_mean. by rewrite map_map.
Qed.



(** X22: the labels file is not filtered.  It has one line for every
    entry of [loader.cell_labels], numbered from 1, whereas the expression
    file numbers only the cells whose expression varies.  As soon as one
    cell is constant the labels file is longer than the expression file,
    and line [t + 1] holds the expression of the [t]-th varying cell but
    the label of the [t]-th cell. *)
Theorem save_smfish_labels_unfiltered (loader : smfish_loader Gene) :
  Forall (fun r => r <> []) (gene_expression loader) ->
  length (coordinate loader) = length (gene_expression loader) ->
  length (cell_labels loader) = length (gene_expression loader) ->
  let kept := filter (fun r => varies r = true) (gene_expression loader) in
  exists expression labels,
    expression_file (save_smfish loader true).1 = Some expression /\
    labels_file (save_smfish loader true).1 = Some labels /\
    (forall t, expression !! t =
               (fun r => (S t, standard_row r)) <$> kept !! t) /\
    (forall t, labels !! t =
               (fun c => (S t, c)) <$> cell_labels loader !! t) /\
    (Exists (fun r => varies r = false) (gene_expression loader) ->
     (length expression < length labels)%nat).
Proof.
  intros _ Hcoord Hlab kept.
  set (X := gene_expression loader) in *.
  set (zero_mask := map (fun s => if Req_dec_T s 0 then false else true)
                      (std1 X)).
  assert (Hlen_mask : length zero_mask = length X).
  { unfold zero_mask, std1. by rewrite !length_map. }
  assert (Hfiles : (save_smfish loader true).1 =
    {| expression_file :=
         Some (imap (fun i expr => (S i, expr)) (map standard_row kept));
       coordinates_file := coordinates_file (save_smfish loader true).1;
       genes_file := Some (gene_list loader);
       labels_file := Some (imap (fun i c => (S i, c)) (cell_labels loader)) |}).
  { unfold save_smfish. fold X. rewrite smfish_rows. fold kept zero_mask.
    unfold mask_rows. rewrite Hlen_mask, Hcoord, Nat.eqb_refl. done. }
  rewrite Hfiles. cbn [expression_file labels_file].
  do 2 eexists. split; [reflexivity|]. split; [reflexivity|]. split_and!.
  - intros t. rewrite list_lookup_imap.
    change (map ?f ?l) with (f <$> l). rewrite list_lookup_fmap.
    by destruct (kept !! t).
  - intros t. by rewrite list_lookup_imap.
  - intros Hex. rewrite !length_imap, length_map, Hlab.
    subst kept. clear -Hex. induction Hex as [r X Hr|r X _ IH].
    + rewrite filter_cons, decide_False by (by rewrite Hr). cbn.
      pose proof (length_filter (fun r => varies r = true) X). lia.
    + rewrite filter_cons. destruct (decide _); cbn; lia.
Qed.
End save_smfish_facts.

(** ** The further properties at the sample data *)

Lemma next_batch_without_labels_witness :
  exists l' g' ev,
    next_batch rev_shuffle 2 true (sample_unlabelled, tt) = ((l', g'), ev, None) /\
    _index_in_epoch l' = 2.
Proof.
  destruct (next_batch_without_labels rev_shuffle sample_unlabelled tt 2 true)
    as (l' & g' & ev & Hstep & Hstate).
  - reflexivity.
  - reflexivity.
  - exists l', g', ev. split; [exact Hstep|]. exact (proj2 Hstate).
Defined.

Lemma training_epochs_cover_samples_witness :
  exists l' g' outs positions epochs,
    run rev_shuffle [(2, true); (2, true)] (sample_loader false, tt) =
      ((l', g'), outs) /\
    Forall2 (returned_at (sample_loader false)) positions outs /\
    Z.of_nat (length epochs) = epochs_completed l' /\
    concat positions =
      concat epochs ++ take (Z.to_nat (_index_in_epoch l')) (_perm l').
Proof.
  destruct (training_epochs_cover_samples rev_shuffle rev_shuffle_perm
              sample_xs sample_y tt [(2, true); (2, true)] (sample_loader false))
    as (l' & g' & outs & positions & epochs & Hrun & Hret & _ & Hlen & Hcat & _).
  - reflexivity.
  - reflexivity.
  - repeat constructor; cbn; lia.
  - exists l', g', outs, positions, epochs. by split_and!.
Defined.

Lemma evaluation_pass_order_witness :
  exists l' g' outs positions,
    run rev_shuffle [(2, true); (2, false)] (sample_loader true, tt) =
      ((l', g'), outs) /\
    Forall2 (returned_at (sample_loader true)) positions outs /\
    _perm l' = [2; 1; 0]%nat.
Proof.
  destruct (evaluation_pass_order rev_shuffle rev_shuffle_perm sample_xs None tt
              [(2, true); (2, false)] (sample_loader true))
    as (l' & g' & outs & positions & Hrun & Hret & _ & Hperm & _).
  - reflexivity.
  - repeat constructor; cbn; lia.
  - exists l', g', outs, positions. by split_and!.
Defined.

Lemma short_labels_raise_witness :
  exists w ev,
    next_batch rev_shuffle 3 true
      ({| xs := sample_xs; y := Some [0; 1]%nat; epochs_completed := 0;
          _index_in_epoch := 0; sample_n := 3; _perm := [0; 1; 2]%nat;
          for_eval := false |}, tt) = (w, ev, None).
Proof.
  apply (short_labels_raise rev_shuffle rev_shuffle_perm sample_xs [0; 1]%nat
           tt true).
  - reflexivity.
  - cbn; lia.
Defined.

Lemma tag2int_canonical_witness :
  label_ok false (length [3; 1; 3]%nat) (length [3; 1]%nat)
    (Vector (Z.of_nat <$> [0; 1; 0]%nat)).
Proof.
  apply (tag2int_canonical gset_order gset_order_NoDup gset_order_elem
           [3; 1; 3]%nat [0; 1; 0]%nat [3; 1]%nat).
  vm_compute. reflexivity.
Defined.

Lemma one_hot_vector_spec_witness :
  (one_hot_vector gset_order false [3; 1; 3]%nat (Some 1)).2 = None /\
  exists one_hot,
    (one_hot_vector gset_order false [3; 1; 3]%nat None).2 =
      Some (one_hot, gset_order [3; 1; 3]%nat) /\
    length one_hot = 3%nat.
Proof.
  split.
  - destruct (one_hot_vector_spec gset_order gset_order_NoDup gset_order_elem
                false [3; 1; 3]%nat (Some 1)) as (_ & Hnone & _).
    apply Hnone. vm_compute. reflexivity.
  - destruct (one_hot_vector_spec gset_order gset_order_NoDup gset_order_elem
                false [3; 1; 3]%nat None) as (_ & _ & Hsome).
    destruct Hsome as (one_hot & Hr & Hlen & _).
    + cbn. lia.
    + exists one_hot. split; [exact Hr|exact Hlen].
Defined.

Lemma neighbourhood_count_label_forms_witness :
  get_neighbourhood_count 1 2 true false sample_label_store =
  get_neighbourhood_count 1 3 true true sample_label_store.
Proof.
  destruct (neighbourhood_count_label_forms gset_order gset_order_NoDup
              gset_order_elem sample_label_store 1 2 3 sample_adjacency
              [[1; 0]; [0; 1]; [1; 0]] [3; 1; 3]%nat [0; 1; 0]%nat
              [3; 1]%nat [3; 1]%nat true true) as [_ Heq].
  - vm_compute. reflexivity.
  - vm_compute. reflexivity.
  - reflexivity.
  - reflexivity.
  - reflexivity.
  - discriminate.
  - exact Heq.
Defined.



Lemma KL_divergence_self_witness :
  (KL_divergence [/ 2; / 2; 0]%R [/ 2; / 2; 0]%R (/ 1000000)).2 = 0%R.
Proof.
  apply KL_divergence_self.
  - lra.
  - repeat constructor; lra.
Defined.

Lemma KL_divergence_nonneg_witness :
  (0 <= (KL_divergence [1; 0]%R [/ 2; / 2]%R (/ 1000000)).2)%R.
Proof.
  apply KL_divergence_nonneg.
  - lra.
  - repeat constructor; lra.
  - repeat constructor; lra.
  - reflexivity.
  - unfold Rsum. cbn. lra.
  - unfold Rsum. cbn. lra.
Defined.



Lemma neighbourhood_count_repeat_witness :
  exists σ1 nb_count,
    get_neighbourhood_count 1 2 true false sample_store =
      (σ1, Some nb_count) /\
    get_neighbourhood_count 1 2 false false σ1 = (σ1, Some nb_count).
Proof.
  eexists _, _. split; [reflexivity|].
  apply (neighbourhood_count_repeat sample_store _ 1 2 false _).
  reflexivity.
Defined.

Lemma neighbourhood_count_row_sums_witness :
  exists nb_count,
    (get_neighbourhood_count 1 2 true false sample_store).2 =
      Some (Matrix nb_count) /\
    exists row, nb_count !! 1%nat = Some row /\ foldr Z.add 0 row = 2.
Proof.
  destruct (neighbourhood_count_row_sums sample_store 1 2 sample_adjacency
              [0; 1; 1] 3 2 true) as (nb_count & Hres & Hrows).
  - reflexivity.
  - reflexivity.
  - split; [reflexivity|]. by apply (bool_decide_unpack _).
  - split; [reflexivity|]. split; [reflexivity|]. by apply (bool_decide_unpack _).
  - exists nb_count. split; [exact Hres|].
    destruct (Hrows 1%nat) as (row & Hrow & _ & Hsum); [lia|].
    exists row. split; [exact Hrow|exact Hsum].
Defined.



Lemma save_smfish_labels_unfiltered_witness :
  exists expression labels,
    expression_file (save_smfish sample_smfish true).1 = Some expression /\
    labels_file (save_smfish sample_smfish true).1 = Some labels /\
    (length expression < length labels)%nat.
Proof.
  destruct (save_smfish_labels_unfiltered sample_smfish)
    as (expression & labels & Hexpr & Hlab & _ & _ & Hlt).
  - repeat (constructor; [discriminate|]). constructor.
  - reflexivity.
  - reflexivity.
  - exists expression, labels. split; [exact Hexpr|]. split; [exact Hlab|].
    apply Hlt. apply Exists_cons_tl, Exists_cons_hd.
    unfold varies. destruct (Req_dec_T (row_std [2; 2]%R) 0) as [_|Hnz];
      [reflexivity|].
    exfalso. apply Hnz. unfold row_std, row_mean, Rsum. cbn.
    match goal with
    | |- sqrt ?a = 0%R => replace a with 0%R; [apply sqrt_0|]
    end.
    lra.
Defined.

